(** * Black-76 pricing of a European option on a future

    A shallow embedding of [optionprice_question.py] and the verification of
    its specification.

    Modelling conventions.
    - In the modules [Black76] and [Spec] a Python [float] is a real number
      ([R]): arithmetic is exact, and the operations that raise in Python
      ([/] on a zero divisor, [math.log] outside its domain, [math.sqrt] of
      a negative number) return an exception value.  This model says which
      formula each method evaluates and what it raises; overflow, infinities
      and NaN are outside it.
    - In the module [Binary64] the same methods are evaluated over IEEE 754
      binary64 numbers, as CPython does.  It is used at concrete inputs,
      where the rounding of the arithmetic or the saturation of [norm.cdf]
      at [0.0] and [1.0] decides the outcome.
    - Where the evaluation in binary64 decides a comparison of returned
      numbers otherwise than the exact formulas do, the statement is made
      with bounds that are not strict or with an explicit allowance for
      rounding, and the binary64 evaluation that forces it is exhibited.
    - A Python exception is a value of [exn]; a computation that may raise
      has type [result A].
    - A naive [datetime] is a record of its seven fields; subtraction follows
      the proleptic Gregorian ordinal of the [datetime] module and normalises
      the difference the way [timedelta] does.
    - [scipy.stats.norm.cdf] is the standard normal distribution function,
      [(1 + erf (x / sqrt 2)) / 2]; in [Binary64] it is a field of the
      record of library functions. *)

From Stdlib Require Import Reals Lra Lia ZArith String List Bool Psatz.
From Stdlib Require Floats Uint63.
Import ListNotations.

Local Open Scope R_scope.

(** ** Exceptions and results *)

Inductive exn : Type :=
| ValueError (msg : string)
| ZeroDivisionError (msg : string).

Inductive result (A : Type) : Type :=
| Return (a : A)
| Raise (e : exn).

Arguments Return {A} a.
Arguments Raise {A} e.

Definition bind {A B : Type} (m : result A) (k : A -> result B) : result B :=
  match m with
  | Return a => k a
  | Raise e => Raise e
  end.

Notation "x <- m ;; k" := (bind m (fun x => k))
  (at level 61, m at next level, right associativity).

Definition raises {A : Type} (m : result A) : Prop :=
  exists e, m = Raise e.

(** The message of the error raised on an option type that is neither a call
    nor a put, and those of the numeric errors of the runtime. *)

Definition option_type_msg : string := "Option type must be 'c' or 'p'".
Definition InvalidOptionType : exn := ValueError option_type_msg.
Definition math_domain_error : exn := ValueError "math domain error".
Definition float_division_by_zero : exn :=
  ZeroDivisionError "float division by zero".

(** ** Naive datetimes and their difference in days *)

Module PyDatetime.

Local Open Scope Z_scope.

Record datetime : Type := mk_datetime {
  year : Z; month : Z; day : Z;
  hour : Z; minute : Z; second : Z; microsecond : Z
}.

Definition is_leap (y : Z) : bool :=
  (y mod 4 =? 0) && (negb (y mod 100 =? 0) || (y mod 400 =? 0)).

Definition days_before_year (y : Z) : Z :=
  let y1 := y - 1 in y1 * 365 + y1 / 4 - y1 / 100 + y1 / 400.

Definition days_in_month (y m : Z) : Z :=
  if (m =? 2) && is_leap y then 29
  else nth (Z.to_nat m) [0; 31; 28; 31; 30; 31; 30; 31; 31; 30; 31; 30; 31] 0.

Definition days_before_month (y m : Z) : Z :=
  nth (Z.to_nat m) [0; 0; 31; 59; 90; 120; 151; 181; 212; 243; 273; 304; 334] 0
  + (if (2 <? m) && is_leap y then 1 else 0).

Definition ymd2ord (y m d : Z) : Z :=
  days_before_year y + days_before_month y m + d.

Definition toordinal (t : datetime) : Z := ymd2ord (year t) (month t) (day t).

(** The fields a constructed [datetime] can hold. *)
Definition valid (t : datetime) : Prop :=
  1 <= year t <= 9999 /\ 1 <= month t <= 12 /\
  1 <= day t <= days_in_month (year t) (month t) /\
  0 <= hour t < 24 /\ 0 <= minute t < 60 /\ 0 <= second t < 60 /\
  0 <= microsecond t < 1000000.

(** A [timedelta], normalised: [0 <= seconds < 86400] and
    [0 <= microseconds < 1000000]; only [days] carries the sign. *)
Record timedelta : Type := mk_timedelta {
  days : Z; seconds : Z; microseconds : Z
}.

Definition timedelta_new (d s us : Z) : timedelta :=
  let s' := s + us / 1000000 in
  mk_timedelta (d + s' / 86400) (s' mod 86400) (us mod 1000000).

Definition seconds_of_day (t : datetime) : Z :=
  second t + minute t * 60 + hour t * 3600.

(** [datetime.__sub__] on two naive datetimes. *)
Definition sub (a b : datetime) : timedelta :=
  timedelta_new (toordinal a - toordinal b)
                (seconds_of_day a - seconds_of_day b)
                (microsecond a - microsecond b).

(** Microseconds elapsed since the start of day 0 of the ordinal count. *)
Definition to_microseconds (t : datetime) : Z :=
  (toordinal t * 86400 + seconds_of_day t) * 1000000 + microsecond t.

Definition days_in_year (y : Z) : Z := if is_leap y then 366 else 365.

(** Comparison of two naive datetimes: their seven fields, in order. *)
Fixpoint lex_compare (l1 l2 : list Z) : comparison :=
  match l1, l2 with
  | x :: l1', y :: l2' =>
      match x ?= y with
      | Eq => lex_compare l1' l2'
      | c => c
      end
  | [], [] => Eq
  | [], _ :: _ => Lt
  | _ :: _, [] => Gt
  end.

Definition fields (t : datetime) : list Z :=
  [year t; month t; day t; hour t; minute t; second t; microsecond t].

Definition compare (a b : datetime) : comparison :=
  lex_compare (fields a) (fields b).

End PyDatetime.

(** ** The numeric runtime *)

Module PyMath.

(** [x / y] on floats. *)
Definition truediv (x y : R) : result R :=
  if Req_EM_T y 0 then Raise float_division_by_zero else Return (x / y).

(** [math.log]. *)
Definition log (x : R) : result R :=
  if Rlt_dec 0 x then Return (ln x) else Raise math_domain_error.

(** [math.sqrt]. *)
Definition sqrt (x : R) : result R :=
  if Rlt_dec x 0 then Raise math_domain_error else Return (R_sqrt.sqrt x).

(** [math.exp]. *)
Definition exp (x : R) : R := Rtrigo_def.exp x.

End PyMath.

(** ** The standard normal distribution function *)

Module Normal.

(** Integral of a function that is continuous everywhere, over any two
    bounds (in either order). *)
Definition cont_integrable (f : R -> R) (Hc : continuity f) (a b : R) :
  Riemann_integrable f a b :=
  match Rle_dec a b with
  | left Hab => continuity_implies_RiemannInt Hab (fun x _ => Hc x)
  | right Hba =>
      RiemannInt_P1
        (continuity_implies_RiemannInt
           (Rlt_le b a (Rnot_le_lt a b Hba)) (fun x _ => Hc x))
  end.

Definition RInt (f : R -> R) (Hc : continuity f) (a b : R) : R :=
  RiemannInt (cont_integrable f Hc a b).

Definition gauss (s : R) : R := exp (- (s * s)).

Lemma gauss_continuity : continuity gauss.
Proof.
  unfold gauss. apply derivable_continuous. intro s. reg.
Qed.

Definition gauss_int (x : R) : R := RInt gauss gauss_continuity 0 x.

Definition erf (x : R) : R := 2 / sqrt PI * gauss_int x.

(** Modelled from the spec: [scipy.stats.norm.cdf] is a library function,
    which the spec takes to be the standard normal cumulative distribution
    function; it is [(1 + erf (x / sqrt 2)) / 2], with
    [erf x = 2 / sqrt PI * integral of exp (- s * s) for s from 0 to x]. *)
Definition norm_cdf (x : R) : R := (1 + erf (x / sqrt 2)) / 2.

(** The standard normal density. *)
Definition norm_pdf (x : R) : R := exp (- (x * x) / 2) / sqrt (2 * PI).

(** The normalising constant of the density. *)
Definition pdf_const : R := / sqrt (2 * PI).

(** Auxiliary functions of the analysis.  [J x] is the integral over
    [0 <= t <= 1] of [kernel x t]; its derivative in [x] is the integral of
    [kernel' x t], and [gauss_int x ^ 2 + J x] is constant. *)
Definition kernel (x t : R) : R :=
  exp (- (x * x * (1 + t * t))) / (1 + t * t).
Definition kernel' (x t : R) : R := -2 * x * exp (- (x * x * (1 + t * t))).
Definition kernel'' (x t : R) : R :=
  (-2 + 4 * (x * x * (1 + t * t))) * exp (- (x * x * (1 + t * t))).

Lemma kernel_continuity x : continuity (kernel x).
Proof.
  unfold kernel. intros t. reg. nra.
Qed.

Lemma kernel'_continuity x : continuity (kernel' x).
Proof.
  unfold kernel'. intros t. reg.
Qed.

Definition J (x : R) : R := RInt (kernel x) (kernel_continuity x) 0 1.

(** Partial sums of the series of [exp (- u)], below and above it for
    [0 <= u], and their primitives along [u = x * x / 2]. *)
Definition exp_lower3 (u : R) : R := 1 - u + u * u / 2 - u * u * u / 6.
Definition exp_upper4 (u : R) : R := exp_lower3 u + u * u * u * u / 24.
Definition cdf_lower (x : R) : R :=
  x - x * x * x / 6 + x * x * x * x * x / 40 - x * x * x * x * x * x * x / 336.
Definition cdf_upper (x : R) : R :=
  cdf_lower x + x * x * x * x * x * x * x * x * x / 3456.

(** [F * norm_cdf y - K * norm_cdf (y - s)] as a function of [y], and its
    derivative; it is greatest at [y = dstar F K s]. *)
Definition payoff_gap (F K s y : R) : R :=
  F * norm_cdf y - K * norm_cdf (y - s).
Definition payoff_gap' (F K s y : R) : R :=
  norm_pdf y * (F - K * exp (s * y - s * s / 2)).
Definition dstar (F K s : R) : R := (ln (F / K) + s * s / 2) / s.

End Normal.

(** ** The pricing engine, from [optionprice_question.py] *)

Module Black76.

Import PyDatetime.
Import Normal.

Record EuropeanOptionOnFuture : Type := mk_engine {
  _strike_price : R;
  _expiry_date : datetime;
  _vol : R;
  _discount_rate : R;
  _option_type : string
}.

(** [option_type not in ('c', 'p')]. *)
Definition not_in (x : string) (l : list string) : bool :=
  negb (existsb (String.eqb x) l).

Definition __init__ (strike_price : R) (expiry_date : datetime)
    (vol discount_rate : R) (option_type : string) :
    result EuropeanOptionOnFuture :=
  if not_in option_type ["c"; "p"]%string then Raise InvalidOptionType
  else Return (mk_engine strike_price expiry_date vol discount_rate
                         option_type).

Definition _calc_maturity (self : EuropeanOptionOnFuture)
    (current_time : datetime) : R :=
  IZR (days (sub (_expiry_date self) current_time)) / 365.

Definition _calc_d1 (self : EuropeanOptionOnFuture)
    (futures_price time_to_maturity : R) : result R :=
  q <- PyMath.truediv futures_price (_strike_price self) ;;
  l <- PyMath.log q ;;
  s <- PyMath.sqrt time_to_maturity ;;
  PyMath.truediv (l + 0.5 * _vol self ^ 2 * time_to_maturity)
                 (_vol self * s).

Definition get_price (self : EuropeanOptionOnFuture)
    (futures_price : R) (current_time : datetime) : result R :=
  let time_to_maturity := _calc_maturity self current_time in
  d1 <- _calc_d1 self futures_price time_to_maturity ;;
  s <- PyMath.sqrt time_to_maturity ;;
  let d2 := d1 - _vol self * s in
  if (_option_type self =? "c")%string then
    Return (PyMath.exp (- _discount_rate self * time_to_maturity)
            * (futures_price * norm_cdf d1 - _strike_price self * norm_cdf d2))
  else if (_option_type self =? "p")%string then
    Return (PyMath.exp (- _discount_rate self * time_to_maturity)
            * (_strike_price self * norm_cdf (- d2)
               - futures_price * norm_cdf (- d1)))
  else Raise InvalidOptionType.

Definition get_delta (self : EuropeanOptionOnFuture)
    (futures_price : R) (current_time : datetime) : result R :=
  let time_to_maturity := _calc_maturity self current_time in
  d1 <- _calc_d1 self futures_price time_to_maturity ;;
  if (_option_type self =? "c")%string then
    Return (PyMath.exp (- _discount_rate self * time_to_maturity)
            * norm_cdf d1)
  else if (_option_type self =? "p")%string then
    Return (PyMath.exp (- _discount_rate self * time_to_maturity)
            * (norm_cdf d1 - 1))
  else Raise InvalidOptionType.

(** An engine is constructed when [__init__] returned it. *)
Definition constructed (self : EuropeanOptionOnFuture) : Prop :=
  exists strike_price expiry_date vol discount_rate option_type,
    __init__ strike_price expiry_date vol discount_rate option_type
    = Return self.

End Black76.

(** ** The specification's formulas, in its own words *)

Module Spec.

Import PyDatetime.
Import Normal.

Inductive OptionType : Type := CALL | PUT.

(** The two recognised tags. *)
Definition tag (s : string) : option OptionType :=
  if (s =? "c")%string then Some CALL
  else if (s =? "p")%string then Some PUT
  else None.

(** Whole days from [valuation_time] to [expiry_date]: the elapsed time,
    rounded down to a multiple of a day. *)
Definition whole_days (expiry_date valuation_time : datetime) : Z :=
  ((to_microseconds expiry_date - to_microseconds valuation_time)
   / 86400000000)%Z.

Definition time_to_maturity (expiry_date valuation_time : datetime) : R :=
  IZR (whole_days expiry_date valuation_time) / 365.

Definition d1 (futures_price strike_price volatility T : R) : R :=
  (ln (futures_price / strike_price) + 0.5 * volatility ^ 2 * T)
  / (volatility * sqrt T).

Definition d2 (futures_price strike_price volatility T : R) : R :=
  d1 futures_price strike_price volatility T - volatility * sqrt T.

Definition discount_factor (discount_rate T : R) : R :=
  exp (- discount_rate * T).

Definition price (ot : OptionType)
    (futures_price strike_price volatility discount_rate T : R) : R :=
  let d1 := d1 futures_price strike_price volatility T in
  let d2 := d2 futures_price strike_price volatility T in
  match ot with
  | CALL => discount_factor discount_rate T
            * (futures_price * norm_cdf d1 - strike_price * norm_cdf d2)
  | PUT => discount_factor discount_rate T
           * (strike_price * norm_cdf (- d2) - futures_price * norm_cdf (- d1))
  end.

Definition delta (ot : OptionType)
    (futures_price strike_price volatility discount_rate T : R) : R :=
  let d1 := d1 futures_price strike_price volatility T in
  match ot with
  | CALL => discount_factor discount_rate T * norm_cdf d1
  | PUT => discount_factor discount_rate T * (norm_cdf d1 - 1)
  end.

(** The inputs on which every step of the [d1] formula is defined: the
    quotient, the logarithm, the square root and the final division. *)
Definition defined (futures_price strike_price volatility T : R) : Prop :=
  strike_price <> 0 /\ 0 < futures_price / strike_price /\
  0 < T /\ volatility <> 0.

End Spec.

(** ** The scenario of the module's self-test *)

Module Scenario.

Import PyDatetime Black76.

Definition expiry : datetime := mk_datetime 2022 11 1 12 0 0 0.
Definition curr_time : datetime := mk_datetime 2021 11 1 12 0 0 0.
Definition opt : EuropeanOptionOnFuture := mk_engine 100 expiry 0.5 0.01 "c".
Definition opt_put : EuropeanOptionOnFuture :=
  mk_engine 100 expiry 0.5 0.01 "p".

(** A call whose strike and futures price are both negative. *)
Definition opt_neg : EuropeanOptionOnFuture :=
  mk_engine (-100) expiry 0.5 0.01 "c".

End Scenario.

(** ** The self-test script *)

Module Script.

Import PyDatetime Black76 Scenario.

(** A script either runs to its end, stops on an exception that nothing
    catches, or stops on a failed [assert]. *)
Inductive failure : Type :=
| Uncaught (e : exn)
| AssertionError.

(** What [print] wrote: the text before the value, and the value. *)
Definition stdout : Type := list (string * R).

Definition script (A : Type) : Type := stdout -> stdout * (A + failure).

Definition ret {A : Type} (a : A) : script A := fun out => (out, inl a).

Definition seq {A B : Type} (m : script A) (k : A -> script B) : script B :=
  fun out =>
    match m out with
    | (out', inl a) => k a out'
    | (out', inr f) => (out', inr f)
    end.

Definition lift {A : Type} (m : result A) : script A :=
  fun out =>
    match m with
    | Return a => (out, inl a)
    | Raise e => (out, inr (Uncaught e))
    end.

Definition print (label : string) (value : R) : script unit :=
  fun out => (out ++ [(label, value)], inl tt).

Definition assert {P Q : Prop} (c : {P} + {Q}) : script unit :=
  fun out => if c then (out, inl tt) else (out, inr AssertionError).

Notation "x <~ m ;; k" := (seq m (fun x => k))
  (at level 61, m at next level, right associativity).
Notation "m ;;; k" := (seq m (fun _ => k))
  (at level 61, right associativity).

(** The block under [if __name__ == "__main__"]. *)
Definition main : script unit :=
  let x := 100 in
  let sig := 0.5 in
  let expiry := mk_datetime 2022 11 1 12 0 0 0 in
  let r := 0.01 in
  let opt_type := "c"%string in
  opt <~ lift (__init__ x expiry sig r opt_type) ;;
  let f := 100 in
  let curr_time := mk_datetime 2021 11 1 12 0 0 0 in
  price <~ lift (get_price opt f curr_time) ;;
  delta <~ lift (get_delta opt f curr_time) ;;
  print "Test price = " price ;;;
  assert (Rle_dec (Rabs (price - 19.544836)) 0.0001) ;;;
  print "Test delta = " delta ;;;
  assert (Rle_dec (Rabs (delta - 0.59273)) 0.0001) ;;;
  c <~ lift (__init__ x expiry sig r "c") ;;
  dc <~ lift (get_delta c f curr_time) ;;
  assert (Rgt_dec dc 0) ;;;
  p <~ lift (__init__ x expiry sig r "p") ;;
  dp <~ lift (get_delta p f curr_time) ;;
  assert (Rlt_dec dp 0).

End Script.

Module Views.

(** The number a call returned, for use as a function of its argument. *)
Definition value_of (m : result R) : R :=
  match m with
  | Return x => x
  | Raise _ => 0
  end.


End Views.

(** ** Auxiliary functions of the further analysis *)

Module Auxiliary.

Import Normal.


End Auxiliary.

(** ** Evaluation in binary64 *)

(** The five methods over IEEE 754 binary64 numbers.  Sums, differences,
    products, quotients and square roots are those of the format, rounded
    to nearest with ties to even.  The functions that the format does not
    define, [math.log], [math.exp], [float.__pow__] and [norm.cdf], are the
    fields of a record [libm], so that every definition below is the code's
    for any C library and any version of scipy.  ([math.exp] and [**] raise
    [OverflowError] on a result beyond the largest binary64 number; no
    example comes near such magnitudes and the error is not modelled.) *)

Module Binary64.

Import PrimFloat.
Import PyDatetime.
Local Open Scope float_scope.

Record libm : Type := mk_libm {
  m_log : float -> float;
  m_exp : float -> float;
  m_pow : float -> float -> float;
  norm_cdf : float -> float
}.

(** The binary64 number of a Python [int] that it represents exactly, such
    as a count of days. *)
Definition of_int (n : Z) : float :=
  match n with
  | Z0 => 0
  | Zpos _ => of_uint63 (Uint63.of_Z n)
  | Zneg p => - of_uint63 (Uint63.of_Z (Zpos p))
  end.

(** [x / y] raises on a zero divisor, of either sign. *)
Definition truediv (x y : float) : result float :=
  if y =? 0 then Raise float_division_by_zero else Return (x / y).

Record EuropeanOptionOnFuture : Type := mk_engine {
  _strike_price : float;
  _expiry_date : datetime;
  _vol : float;
  _discount_rate : float;
  _option_type : string
}.

Definition not_in (x : string) (l : list string) : bool :=
  negb (existsb (String.eqb x) l).

Definition __init__ (strike_price : float) (expiry_date : datetime)
    (vol discount_rate : float) (option_type : string) :
    result EuropeanOptionOnFuture :=
  if not_in option_type ["c"; "p"]%string then Raise InvalidOptionType
  else Return (mk_engine strike_price expiry_date vol discount_rate
                         option_type).

(** [.days / 365]: the quotient of two integers, rounded once. *)
Definition _calc_maturity (self : EuropeanOptionOnFuture)
    (current_time : datetime) : float :=
  of_int (days (sub (_expiry_date self) current_time)) / of_int 365.

Section Evaluation.

Variable rt : libm.

(** [math.log] and [math.sqrt] raise outside their domains. *)
Definition log (x : float) : result float :=
  if x <=? 0 then Raise math_domain_error else Return (m_log rt x).

Definition sqrt (x : float) : result float :=
  if x <? 0 then Raise math_domain_error else Return (PrimFloat.sqrt x).

Definition _calc_d1 (self : EuropeanOptionOnFuture)
    (futures_price time_to_maturity : float) : result float :=
  q <- truediv futures_price (_strike_price self) ;;
  l <- log q ;;
  s <- sqrt time_to_maturity ;;
  truediv (l + 0x1p-1 * m_pow rt (_vol self) 2 * time_to_maturity)
          (_vol self * s).

Definition get_price (self : EuropeanOptionOnFuture)
    (futures_price : float) (current_time : datetime) : result float :=
  let time_to_maturity := _calc_maturity self current_time in
  d1 <- _calc_d1 self futures_price time_to_maturity ;;
  s <- sqrt time_to_maturity ;;
  let d2 := d1 - _vol self * s in
  if (_option_type self =? "c")%string then
    Return (m_exp rt (- _discount_rate self * time_to_maturity)
            * (futures_price * norm_cdf rt d1
               - _strike_price self * norm_cdf rt d2))
  else if (_option_type self =? "p")%string then
    Return (m_exp rt (- _discount_rate self * time_to_maturity)
            * (_strike_price self * norm_cdf rt (- d2)
               - futures_price * norm_cdf rt (- d1)))
  else Raise InvalidOptionType.

Definition get_delta (self : EuropeanOptionOnFuture)
    (futures_price : float) (current_time : datetime) : result float :=
  let time_to_maturity := _calc_maturity self current_time in
  d1 <- _calc_d1 self futures_price time_to_maturity ;;
  if (_option_type self =? "c")%string then
    Return (m_exp rt (- _discount_rate self * time_to_maturity)
            * norm_cdf rt d1)
  else if (_option_type self =? "p")%string then
    Return (m_exp rt (- _discount_rate self * time_to_maturity)
            * (norm_cdf rt d1 - 1))
  else Raise InvalidOptionType.

End Evaluation.

(** *** The library functions at the arguments of the examples *)

(** The values below are those that CPython returns on x86-64 Linux with
    the GNU C library and scipy.  No statement of this development
    evaluates a function outside its table. *)

(** A function given by the list of its recorded values; NaN elsewhere. *)
Definition lookup (table : list (float * float)) (x : float) : float :=
  match find (fun e => fst e =? x) table with
  | Some e => snd e
  | None => nan
  end.

(** [math.log] at 0.01, 0.02, 0.25, 1, 2, 3, 60 and 100. *)
Definition log_table : list (float * float) :=
  [ (0x1.47ae147ae147bp-7, -0x1.26bb1bbb55515p+2);
    (0x1.47ae147ae147bp-6, -0x1.f4bd2b7ac1bafp+1);
    (0x1p-2, -0x1.62e42fefa39efp+0);
    (1, 0);
    (2, 0x1.62e42fefa39efp-1);
    (3, 0x1.193ea7aad030bp+0);
    (60, 0x1.0609bdc65328bp+2);
    (100, 0x1.26bb1bbb55516p+2) ].

(** [math.exp] at -0.01: 0.9900498337491681. *)
Definition exp_table : list (float * float) :=
  [ (-0x1.47ae147ae147bp-7, 0x1.fae7cfd2b9cfep-1) ].

(** [norm.cdf] at 0.25, -0.25 and -2.522588722239781 (the [d1] of the
    self-test engine at the futures prices 100 and 25), and at
    8.4386891244442 (its [d1] at 6000), where the result is already 1. *)
Definition cdf_table : list (float * float) :=
  [ (0x1p-2, 0x1.3289a2b16ed6cp-1);
    (-0x1p-2, 0x1.9aecba9d22528p-2);
    (-0x1.42e42fefa39efp+1, 0x1.7dbab8156ddd0p-8);
    (0x1.0e09bdc65328bp+3, 1) ].

(** The recorded library.  A power of exponent 2, the only one the code
    takes, is the product rounded once.  Below [-40] the distribution
    function is smaller than half the least positive binary64 number, and
    above [9] it is closer to [1] than half the distance from [1] to the
    number before it ([SaturationFacts.norm_cdf_below] and
    [norm_cdf_above]): [norm.cdf] returns [0.0] and [1.0] there. *)
Definition recorded : libm :=
  {| m_log := lookup log_table;
     m_exp := lookup exp_table;
     m_pow := fun x y => if y =? 2 then x * x else nan;
     norm_cdf := fun x =>
       if x <=? -40 then 0
       else if 9 <=? x then 1
       else lookup cdf_table x |}.

(** The library whose [math.exp] returns [D] and whose [norm.cdf] returns
    [p], whatever the argument: for statements that hold of every last
    digit these two functions may return. *)
Definition returning (D p : float) : libm :=
  {| m_log := m_log recorded;
     m_exp := fun _ => D;
     m_pow := m_pow recorded;
     norm_cdf := fun _ => p |}.

(** The [n] binary64 numbers above [x], and below it; the numbers within
    [n] units in the last place of [x]. *)
Fixpoint above (n : nat) (x : float) : list float :=
  match n with
  | O => []
  | S k => next_up x :: above k (next_up x)
  end.

Fixpoint below (n : nat) (x : float) : list float :=
  match n with
  | O => []
  | S k => next_down x :: below k (next_down x)
  end.

Definition within (n : nat) (x : float) : list float :=
  below n x ++ x :: above n x.

(** *** Engines of the examples *)

(** The engines of the self-test, and the same contracts with a volatility
    of 0.01. *)
Definition expiry : datetime := mk_datetime 2022 11 1 12 0 0 0.
Definition curr_time : datetime := mk_datetime 2021 11 1 12 0 0 0.

Definition opt : EuropeanOptionOnFuture :=
  mk_engine 100 expiry 0x1p-1 0x1.47ae147ae147bp-7 "c".
Definition opt_put : EuropeanOptionOnFuture :=
  mk_engine 100 expiry 0x1p-1 0x1.47ae147ae147bp-7 "p".
Definition low_vol : EuropeanOptionOnFuture :=
  mk_engine 100 expiry 0x1.47ae147ae147bp-7 0x1.47ae147ae147bp-7 "c".

End Binary64.

(** ** Rounded arithmetic and allowances for rounding *)

Module Rounded.

(** The unit roundoff of binary64: rounding to nearest changes a number by
    at most this fraction of it. *)
Definition u : R := / 2 ^ 53.


Section Rounded.

(** The rounding applied to the result of each arithmetic operation. *)
Variable rnd : R -> R.

(** The last line of each branch of [get_delta], where [D] and [p] are the
    numbers that [exp] and [norm.cdf] returned, and the difference of the
    two results. *)
Definition call_delta (D p : R) : R := rnd (D * p).
Definition put_delta (D p : R) : R := rnd (D * rnd (p - 1)).
Definition delta_difference (D p : R) : R :=
  rnd (call_delta D p - put_delta D p).

End Rounded.

End Rounded.



(** ** Results on the monad and the numeric runtime *)

Lemma bind_Return {A B : Type} (a : A) (k : A -> result B) :
  bind (Return a) k = k a.
Proof. reflexivity. Qed.

Lemma bind_Raise {A B : Type} (e : exn) (k : A -> result B) :
  bind (Raise e) k = Raise e.
Proof. reflexivity. Qed.

Lemma bind_returns_inv {A B : Type} (m : result A) (k : A -> result B) b :
  bind m k = Return b -> exists a, m = Return a /\ k a = Return b.
Proof.
  destruct m as [a|e]; simpl; intros H; [eauto | discriminate].
Qed.

Lemma truediv_nonzero x y : y <> 0 -> PyMath.truediv x y = Return (x / y).
Proof.
  intros Hy. unfold PyMath.truediv. destruct (Req_EM_T y 0); [contradiction | reflexivity].
Qed.

Lemma truediv_zero x y : y = 0 -> PyMath.truediv x y = Raise float_division_by_zero.
Proof.
  intros Hy. unfold PyMath.truediv. destruct (Req_EM_T y 0); [reflexivity | contradiction].
Qed.

Lemma log_pos x : 0 < x -> PyMath.log x = Return (ln x).
Proof.
  intros Hx. unfold PyMath.log. destruct (Rlt_dec 0 x); [reflexivity | contradiction].
Qed.

Lemma log_nonpos x : x <= 0 -> PyMath.log x = Raise math_domain_error.
Proof.
  intros Hx. unfold PyMath.log. destruct (Rlt_dec 0 x); [lra | reflexivity].
Qed.

Lemma sqrt_nonneg x : 0 <= x -> PyMath.sqrt x = Return (sqrt x).
Proof.
  intros Hx. unfold PyMath.sqrt. destruct (Rlt_dec x 0); [lra | reflexivity].
Qed.

Lemma sqrt_neg x : x < 0 -> PyMath.sqrt x = Raise math_domain_error.
Proof.
  intros Hx. unfold PyMath.sqrt. destruct (Rlt_dec x 0); [reflexivity | contradiction].
Qed.

Lemma sqrt_pos_neq_0 x : 0 < x -> sqrt x <> 0.
Proof.
  intros Hx. apply Rgt_not_eq, sqrt_lt_R0, Hx.
Qed.

(** ** Days between two datetimes *)

Module DatetimeFacts.

Import PyDatetime.
Local Open Scope Z_scope.

(** The [days] field of a difference is the elapsed time rounded down to
    whole days. *)
Lemma days_sub_floor (a b : datetime) :
  days (sub a b) = (to_microseconds a - to_microseconds b) / 86400000000.
Proof.
  unfold sub, timedelta_new, to_microseconds. cbn [days].
  set (d := toordinal a - toordinal b).
  set (s := seconds_of_day a - seconds_of_day b).
  set (u := microsecond a - microsecond b).
  replace ((toordinal a * 86400 + seconds_of_day a) * 1000000 + microsecond a
           - ((toordinal b * 86400 + seconds_of_day b) * 1000000 + microsecond b))
    with ((d * 86400 + s) * 1000000 + u) by (unfold d, s, u; ring).
  change 86400000000 with (1000000 * 86400).
  rewrite <- Z.div_div by lia.
  rewrite Z.div_add_l by lia.
  replace (d * 86400 + s + u / 1000000) with (d * 86400 + (s + u / 1000000)) by ring.
  rewrite Z.div_add_l by lia. reflexivity.
Qed.

Lemma days_sub_nonpos (a b : datetime) :
  to_microseconds a <= to_microseconds b -> days (sub a b) <= 0.
Proof.
  intros H. rewrite days_sub_floor.
  apply Z.div_le_upper_bound; lia.
Qed.

Lemma days_sub_neg (a b : datetime) :
  to_microseconds a < to_microseconds b -> days (sub a b) < 0.
Proof.
  intros H. rewrite days_sub_floor.
  apply Z.div_lt_upper_bound; lia.
Qed.

Lemma days_sub_nonneg (a b : datetime) :
  to_microseconds b <= to_microseconds a -> 0 <= days (sub a b).
Proof.
  intros H. rewrite days_sub_floor.
  apply Z.div_pos; lia.
Qed.

Lemma days_sub_same (a b : datetime) :
  to_microseconds a = to_microseconds b -> days (sub a b) = 0.
Proof.
  intros H. rewrite days_sub_floor, H, Z.sub_diag. reflexivity.
Qed.

(** The order of two valid datetimes is that of their positions in time. *)

Lemma days_before_year_succ y :
  days_before_year (y + 1) = days_before_year y + days_in_year y.
Proof.
  unfold days_before_year, days_in_year, is_leap. cbv zeta.
  replace (y + 1 - 1) with y by lia.
  destruct (y mod 4 =? 0) eqn:E4; destruct (y mod 100 =? 0) eqn:E100;
    destruct (y mod 400 =? 0) eqn:E400; cbn [andb orb negb];
    rewrite ?Z.eqb_eq, ?Z.eqb_neq in *;
    Z.div_mod_to_equations; lia.
Qed.

Lemma days_before_year_mono y y' :
  y < y' -> days_before_year y + days_in_year y <= days_before_year y'.
Proof.
  intros H. rewrite <- days_before_year_succ.
  unfold days_before_year. cbv zeta. Z.div_mod_to_equations. lia.
Qed.

Lemma month_day_bound y m d :
  1 <= m <= 12 -> 1 <= d <= days_in_month y m ->
  1 <= days_before_month y m + d <= days_in_year y.
Proof.
  intros Hm Hd. unfold days_before_month, days_in_month, days_in_year in *.
  destruct (is_leap y);
    assert (Hc : m = 1 \/ m = 2 \/ m = 3 \/ m = 4 \/ m = 5 \/ m = 6 \/ m = 7
                 \/ m = 8 \/ m = 9 \/ m = 10 \/ m = 11 \/ m = 12) by lia;
    repeat (destruct Hc as [-> | Hc]); try subst m; cbv [nth Z.to_nat Pos.to_nat Pos.iter_op Init.Nat.add Z.eqb Pos.eqb Z.ltb
         Z.compare Pos.compare Pos.compare_cont andb] in *; lia.
Qed.

Lemma month_mono y m d m' d' :
  1 <= m <= 12 -> 1 <= m' <= 12 -> m < m' ->
  1 <= d <= days_in_month y m -> 1 <= d' ->
  days_before_month y m + d < days_before_month y m' + d'.
Proof.
  intros Hm Hm' Hlt Hd Hd'.
  unfold days_before_month, days_in_month in *.
  destruct (is_leap y);
    assert (Hc : m = 1 \/ m = 2 \/ m = 3 \/ m = 4 \/ m = 5 \/ m = 6 \/ m = 7
                 \/ m = 8 \/ m = 9 \/ m = 10 \/ m = 11 \/ m = 12) by lia;
    assert (Hc' : m' = 1 \/ m' = 2 \/ m' = 3 \/ m' = 4 \/ m' = 5 \/ m' = 6
                  \/ m' = 7 \/ m' = 8 \/ m' = 9 \/ m' = 10 \/ m' = 11
                  \/ m' = 12) by lia;
    repeat (destruct Hc as [-> | Hc]); try subst m;
    repeat (destruct Hc' as [-> | Hc']); try subst m';
    cbv [nth Z.to_nat Pos.to_nat Pos.iter_op Init.Nat.add Z.eqb Pos.eqb Z.ltb
         Z.compare Pos.compare Pos.compare_cont andb] in *; lia.
Qed.

Lemma compare_to_microseconds a b :
  valid a -> valid b ->
  compare a b = (to_microseconds a ?= to_microseconds b).
Proof.
  destruct a as [y m d h mi s u], b as [y' m' d' h' mi' s' u'].
  unfold valid, compare, fields, to_microseconds, toordinal, seconds_of_day,
    ymd2ord.
  cbn [year month day hour minute second microsecond lex_compare].
  intros (Hy & Hm & Hd & Hh & Hmi & Hs & Hu)
         (Hy' & Hm' & Hd' & Hh' & Hmi' & Hs' & Hu').
  pose proof (month_day_bound y m d Hm Hd) as Ha.
  pose proof (month_day_bound y' m' d' Hm' Hd') as Hb.
  symmetry.
  destruct (Z.compare_spec y y') as [Ey|Ly|Ly].
  2:{ apply Z.compare_lt_iff.
      pose proof (days_before_year_mono y y' Ly). lia. }
  2:{ apply Z.compare_gt_iff.
      pose proof (days_before_year_mono y' y Ly). lia. }
  subst y'.
  destruct (Z.compare_spec m m') as [Em|Lm|Lm].
  2:{ apply Z.compare_lt_iff.
      pose proof (month_mono y m d m' d' Hm Hm' Lm Hd (proj1 Hd')). lia. }
  2:{ apply Z.compare_gt_iff.
      pose proof (month_mono y m' d' m d Hm' Hm Lm Hd' (proj1 Hd)). lia. }
  subst m'.
  destruct (Z.compare_spec d d') as [Ed|Ld|Ld];
    [subst d' | apply Z.compare_lt_iff; lia | apply Z.compare_gt_iff; lia].
  destruct (Z.compare_spec h h') as [Eh|Lh|Lh];
    [subst h' | apply Z.compare_lt_iff; lia | apply Z.compare_gt_iff; lia].
  destruct (Z.compare_spec mi mi') as [Emi|Lmi|Lmi];
    [subst mi' | apply Z.compare_lt_iff; lia | apply Z.compare_gt_iff; lia].
  destruct (Z.compare_spec s s') as [Es|Ls|Ls];
    [subst s' | apply Z.compare_lt_iff; lia | apply Z.compare_gt_iff; lia].
  destruct (Z.compare_spec u u') as [Eu|Lu|Lu];
    [subst u' | apply Z.compare_lt_iff; lia | apply Z.compare_gt_iff; lia].
  apply Z.compare_refl.
Qed.

End DatetimeFacts.

(** ** The engine: construction and the shape of its results *)

Module EngineFacts.

Import PyDatetime Normal Black76.

Lemma not_in_c_p (ot : string) :
  not_in ot ["c"; "p"]%string = false <-> ot = "c"%string \/ ot = "p"%string.
Proof.
  unfold not_in. cbn [existsb]. rewrite orb_false_r, negb_false_iff, orb_true_iff.
  rewrite !String.eqb_eq. reflexivity.
Qed.

Lemma init_returns_inv K d v r ot self :
  __init__ K d v r ot = Return self ->
  self = mk_engine K d v r ot /\ (ot = "c"%string \/ ot = "p"%string).
Proof.
  unfold __init__. destruct (not_in ot ["c"; "p"]%string) eqn:E; [discriminate|].
  intros H. injection H as <-. split; [reflexivity | now apply not_in_c_p].
Qed.

Lemma init_recognised K d v r ot :
  ot = "c"%string \/ ot = "p"%string ->
  __init__ K d v r ot = Return (mk_engine K d v r ot).
Proof.
  intros H. unfold __init__. apply not_in_c_p in H. now rewrite H.
Qed.

Lemma init_unrecognised K d v r ot :
  ot <> "c"%string -> ot <> "p"%string ->
  __init__ K d v r ot = Raise InvalidOptionType.
Proof.
  intros Hc Hp. unfold __init__.
  destruct (not_in ot ["c"; "p"]%string) eqn:E; [reflexivity|].
  apply not_in_c_p in E. tauto.
Qed.

Lemma constructed_option_type self :
  constructed self ->
  _option_type self = "c"%string \/ _option_type self = "p"%string.
Proof.
  intros (K & d & v & r & ot & H). apply init_returns_inv in H as [-> H]. exact H.
Qed.

Lemma constructed_mk K d v r ot :
  ot = "c"%string \/ ot = "p"%string -> constructed (mk_engine K d v r ot).
Proof.
  intros H. exists K, d, v, r, ot. now apply init_recognised.
Qed.

(** [_calc_d1] either returns the value of the formula or raises one of the
    two numeric errors. *)
Lemma calc_d1_defined self F T :
  Spec.defined F (_strike_price self) (_vol self) T ->
  _calc_d1 self F T = Return (Spec.d1 F (_strike_price self) (_vol self) T).
Proof.
  intros (HK & HFK & HT & Hv). unfold _calc_d1.
  rewrite truediv_nonzero, bind_Return by assumption.
  rewrite log_pos, bind_Return by assumption.
  rewrite sqrt_nonneg, bind_Return by lra.
  rewrite truediv_nonzero; [reflexivity|].
  apply Rmult_integral_contrapositive_currified; [assumption | now apply sqrt_pos_neq_0].
Qed.

Lemma calc_d1_cases self F T :
  let K := _strike_price self in
  let v := _vol self in
  _calc_d1 self F T =
    if Req_EM_T K 0 then Raise float_division_by_zero
    else if Rlt_dec 0 (F / K) then
      if Rlt_dec T 0 then Raise math_domain_error
      else if Req_EM_T (v * sqrt T) 0 then Raise float_division_by_zero
      else Return (Spec.d1 F K v T)
    else Raise math_domain_error.
Proof.
  intros K v. unfold _calc_d1, PyMath.truediv at 1. fold K v.
  destruct (Req_EM_T K 0) as [HK|HK]; [reflexivity|]. rewrite bind_Return.
  unfold PyMath.log. destruct (Rlt_dec 0 (F / K)) as [HFK|HFK]; [|reflexivity].
  rewrite bind_Return. unfold PyMath.sqrt.
  destruct (Rlt_dec T 0) as [HT|HT]; [reflexivity|]. rewrite bind_Return.
  unfold PyMath.truediv. destruct (Req_EM_T (v * sqrt T) 0); reflexivity.
Qed.

Lemma calc_d1_undefined self F T :
  ~ Spec.defined F (_strike_price self) (_vol self) T ->
  _calc_d1 self F T = Raise float_division_by_zero \/
  _calc_d1 self F T = Raise math_domain_error.
Proof.
  intros Hn. rewrite calc_d1_cases. cbv zeta.
  destruct (Req_EM_T (_strike_price self) 0) as [HK|HK]; [now left|].
  destruct (Rlt_dec 0 (F / _strike_price self)) as [HFK|HFK]; [|now right].
  destruct (Rlt_dec T 0) as [HT|HT]; [now right|].
  destruct (Req_EM_T (_vol self * sqrt T) 0) as [Hz|Hz]; [now left|].
  exfalso. apply Hn. repeat split; try assumption.
  - destruct (Rle_lt_or_eq_dec 0 T) as [H|H]; [lra | exact H |].
    subst T. rewrite sqrt_0, Rmult_0_r in Hz. now elim Hz.
  - intros Hv. rewrite Hv, Rmult_0_l in Hz. now elim Hz.
Qed.

Lemma calc_d1_returns_inv self F T d :
  _calc_d1 self F T = Return d ->
  Spec.defined F (_strike_price self) (_vol self) T /\
  d = Spec.d1 F (_strike_price self) (_vol self) T.
Proof.
  intros H. rewrite calc_d1_cases in H. cbv zeta in H.
  destruct (Req_EM_T (_strike_price self) 0) as [HK|HK]; [discriminate|].
  destruct (Rlt_dec 0 (F / _strike_price self)) as [HFK|HFK]; [|discriminate].
  destruct (Rlt_dec T 0) as [HT|HT]; [discriminate|].
  destruct (Req_EM_T (_vol self * sqrt T) 0) as [Hz|Hz]; [discriminate|].
  injection H as <-. split; [|reflexivity].
  repeat split; try assumption.
  - destruct (Rle_lt_or_eq_dec 0 T) as [H|H]; [lra | exact H |].
    subst T. rewrite sqrt_0, Rmult_0_r in Hz. now elim Hz.
  - intros Hv. rewrite Hv, Rmult_0_l in Hz. now elim Hz.
Qed.

(** The results of [get_price] and [get_delta] once [_calc_d1] returned. *)
Lemma get_price_after_d1 self F t d1 :
  let T := _calc_maturity self t in
  let d2 := d1 - _vol self * sqrt T in
  _calc_d1 self F T = Return d1 ->
  get_price self F t =
    if (_option_type self =? "c")%string then
      Return (exp (- _discount_rate self * T)
              * (F * norm_cdf d1 - _strike_price self * norm_cdf d2))
    else if (_option_type self =? "p")%string then
      Return (exp (- _discount_rate self * T)
              * (_strike_price self * norm_cdf (- d2) - F * norm_cdf (- d1)))
    else Raise InvalidOptionType.
Proof.
  intros T d2 H. unfold get_price. fold T. rewrite H, bind_Return.
  apply calc_d1_returns_inv in H as [(_ & _ & HT & _) _].
  rewrite sqrt_nonneg, bind_Return by lra. reflexivity.
Qed.

Lemma get_delta_after_d1 self F t d1 :
  let T := _calc_maturity self t in
  _calc_d1 self F T = Return d1 ->
  get_delta self F t =
    if (_option_type self =? "c")%string then
      Return (exp (- _discount_rate self * T) * norm_cdf d1)
    else if (_option_type self =? "p")%string then
      Return (exp (- _discount_rate self * T) * (norm_cdf d1 - 1))
    else Raise InvalidOptionType.
Proof.
  intros T H. unfold get_delta. fold T. rewrite H, bind_Return. reflexivity.
Qed.

Lemma get_price_propagates self F t ex :
  _calc_d1 self F (_calc_maturity self t) = Raise ex ->
  get_price self F t = Raise ex.
Proof. intros H. unfold get_price. now rewrite H. Qed.

Lemma get_delta_propagates self F t ex :
  _calc_d1 self F (_calc_maturity self t) = Raise ex ->
  get_delta self F t = Raise ex.
Proof. intros H. unfold get_delta. now rewrite H. Qed.

Lemma calc_maturity_spec self t :
  _calc_maturity self t = Spec.time_to_maturity (_expiry_date self) t.
Proof.
  unfold _calc_maturity, Spec.time_to_maturity, Spec.whole_days.
  now rewrite DatetimeFacts.days_sub_floor.
Qed.

Lemma numeric_errors_not_option_type :
  float_division_by_zero <> InvalidOptionType /\
  math_domain_error <> InvalidOptionType.
Proof. split; discriminate. Qed.

End EngineFacts.

(** ** Calculus: primitives and integrals depending on a parameter *)

Module Calculus.

Import Normal.

Lemma RInt_pr f Hc a b (pr : Riemann_integrable f a b) :
  RiemannInt pr = RInt f Hc a b.
Proof. apply RiemannInt_P5. Qed.

Lemma RInt_Chasles f Hc a b c :
  RInt f Hc a b + RInt f Hc b c = RInt f Hc a c.
Proof. apply RiemannInt_P26. Qed.

Lemma RInt_point f Hc a : RInt f Hc a a = 0.
Proof. apply RiemannInt_P9. Qed.

(** The integral of a continuous function is a primitive of it. *)
Lemma RInt_derivable f Hc a x :
  derivable_pt_lim (fun y => RInt f Hc a y) x (f x).
Proof.
  set (a' := Rmin a x - 1). set (b' := Rmax a x + 1).
  assert (Hax : a' < x < b').
  { unfold a', b'. pose proof (Rmin_r a x). pose proof (Rmax_r a x). lra. }
  assert (Haa : a' < a < b').
  { unfold a', b'. pose proof (Rmin_l a x). pose proof (Rmax_l a x). lra. }
  assert (h : a' <= b') by lra.
  pose (C0 := fun (y : R) (_ : a' <= y <= b') => Hc y).
  pose proof (RiemannInt_P28 h C0
                (conj (Rlt_le _ _ (proj1 Hax)) (Rlt_le _ _ (proj2 Hax)))) as HP.
  apply derivable_pt_lim_locally_ext
    with (f := fun y => primitive h (FTC_P1 h C0) y - RInt f Hc a' a)
         (a := a') (b := b').
  - exact Hax.
  - intros z Hz. unfold primitive.
    destruct (Rle_dec a' z) as [H1|H1]; [|lra].
    destruct (Rle_dec z b') as [H2|H2]; [|lra].
    rewrite (RInt_pr f Hc). rewrite <- (RInt_Chasles f Hc a' a z). ring.
  - replace (f x) with (f x - 0) by ring.
    apply (derivable_pt_lim_minus _ (fun _ => RInt f Hc a' a)); [exact HP|].
    apply derivable_pt_lim_const.
Qed.

Lemma null_derivative_const (F : R -> R) :
  (forall x, derivable_pt_lim F x 0) -> forall x y, F x = F y.
Proof.
  intros HF.
  assert (Hlt : forall x y, x < y -> F x = F y).
  { intros x y Hxy.
    destruct (MVT_cor2 F (fun _ => 0) x y Hxy) as (c & Hc & _).
    - intros c _. apply HF.
    - lra. }
  intros x y. destruct (Rtotal_order x y) as [H|[H|H]].
  - now apply Hlt.
  - now subst.
  - symmetry. now apply Hlt.
Qed.

(** Any primitive evaluates the integral. *)
Lemma RInt_FTC f Hc (F : R -> R) a b :
  (forall x, derivable_pt_lim F x (f x)) -> RInt f Hc a b = F b - F a.
Proof.
  intros HF.
  assert (H : forall x, derivable_pt_lim (fun y => RInt f Hc a y - F y) x 0).
  { intros x. replace 0 with (f x - f x) by ring.
    apply (derivable_pt_lim_minus (fun y => RInt f Hc a y) F);
      [apply RInt_derivable | apply HF]. }
  pose proof (null_derivative_const _ H b a) as E. cbv beta in E.
  rewrite RInt_point in E. lra.
Qed.

(** A function null at [0] with a non-negative derivative on the
    non-negative reals is non-negative there. *)
Lemma nonneg_from_zero (f f' : R -> R) :
  f 0 = 0 ->
  (forall x, derivable_pt_lim f x (f' x)) ->
  (forall x, 0 <= x -> 0 <= f' x) ->
  forall x, 0 <= x -> 0 <= f x.
Proof.
  intros H0 Hd Hp x [Hx| <-]; [|lra].
  destruct (MVT_cor2 f f' 0 x Hx) as (c & Hc & Hcb); [intros; apply Hd|].
  pose proof (Hp c (Rlt_le _ _ (proj1 Hcb))). nra.
Qed.

(** Derivatives, stated on functions written pointwise. *)

Lemma dlim_eq (f : R -> R) x l l' :
  l = l' -> derivable_pt_lim f x l -> derivable_pt_lim f x l'.
Proof. now intros ->. Qed.

Lemma dlim_eq2 (f : R -> R) x l l' :
  derivable_pt_lim f x l -> l = l' -> derivable_pt_lim f x l'.
Proof. now intros H <-. Qed.

Lemma dl_id x : derivable_pt_lim (fun y => y) x 1.
Proof. apply derivable_pt_lim_id. Qed.

Lemma dl_const c x : derivable_pt_lim (fun _ => c) x 0.
Proof. apply derivable_pt_lim_const. Qed.

Lemma dl_plus f g x lf lg :
  derivable_pt_lim f x lf -> derivable_pt_lim g x lg ->
  derivable_pt_lim (fun y => f y + g y) x (lf + lg).
Proof. apply derivable_pt_lim_plus. Qed.

Lemma dl_minus f g x lf lg :
  derivable_pt_lim f x lf -> derivable_pt_lim g x lg ->
  derivable_pt_lim (fun y => f y - g y) x (lf - lg).
Proof. apply derivable_pt_lim_minus. Qed.

Lemma dl_opp f x lf :
  derivable_pt_lim f x lf -> derivable_pt_lim (fun y => - f y) x (- lf).
Proof. apply derivable_pt_lim_opp. Qed.

Lemma dl_mult f g x lf lg :
  derivable_pt_lim f x lf -> derivable_pt_lim g x lg ->
  derivable_pt_lim (fun y => f y * g y) x (lf * g x + f x * lg).
Proof. apply derivable_pt_lim_mult. Qed.

Lemma dl_div_const f c x lf :
  derivable_pt_lim f x lf -> derivable_pt_lim (fun y => f y / c) x (lf / c).
Proof.
  intros H. unfold Rdiv.
  eapply dlim_eq2;
    [apply (dl_mult f (fun _ => / c)); [exact H | apply dl_const]|].
  ring.
Qed.

Lemma dl_comp f F x lf lF :
  derivable_pt_lim f x lf -> derivable_pt_lim F (f x) lF ->
  derivable_pt_lim (fun y => F (f y)) x (lF * lf).
Proof. intros H1 H2. apply (derivable_pt_lim_comp f F); assumption. Qed.

Lemma dl_exp f x lf :
  derivable_pt_lim f x lf ->
  derivable_pt_lim (fun y => exp (f y)) x (exp (f x) * lf).
Proof.
  intros H. apply (dl_comp f exp); [exact H | apply derivable_pt_lim_exp].
Qed.

Ltac dl_step :=
  first [ apply dl_id | apply dl_const | eapply dl_exp | eapply dl_opp
        | eapply dl_plus | eapply dl_minus | eapply dl_div_const
        | eapply dl_mult ].

Ltac dl := eapply dlim_eq2; [ repeat dl_step | cbv beta ].

(** Differentiation under the integral sign, for an integrand whose
    derivative in the parameter is Lipschitz in the parameter. *)
Section ParamIntegral.

Variables g g' : R -> R -> R.
Hypothesis Hg : forall x, continuity (g x).
Hypothesis Hg' : forall x, continuity (g' x).
Variable M : R.
Hypothesis HM : 0 < M.
Hypothesis Hd : forall x t, derivable_pt_lim (fun y => g y t) x (g' x t).
Hypothesis HL : forall x y t, Rabs (g' y t - g' x t) <= M * Rabs (y - x).

Lemma param_remainder x h t :
  Rabs (g (x + h) t - g x t - h * g' x t) <= M * (h * h).
Proof.
  pose (phi := fun y => g y t - y * g' x t).
  pose (phi' := fun y => g' y t - g' x t).
  destruct (MVT_abs phi phi' x (x + h)) as (c & Hc & Hcb).
  - intros c _. unfold phi, phi'.
    apply (derivable_pt_lim_minus (fun y => g y t) (fun y => y * g' x t)).
    + apply Hd.
    + apply dlim_eq with (1 * g' x t + c * 0); [ring|].
      apply (derivable_pt_lim_mult (fun y => y) (fun _ => g' x t)).
      * apply derivable_pt_lim_id.
      * apply derivable_pt_lim_const.
  - replace (g (x + h) t - g x t - h * g' x t) with (phi (x + h) - phi x)
      by (unfold phi; ring).
    rewrite Hc. replace (x + h - x) with h by ring.
    assert (Hcx : Rabs (c - x) <= Rabs h).
    { unfold Rmin, Rmax in Hcb. destruct (Rle_dec x (x + h)).
      - rewrite !Rabs_pos_eq; lra.
      - rewrite !Rabs_left1; lra. }
    unfold phi'. pose proof (HL x c t) as HLc.
    pose proof (Rabs_pos h). pose proof (Rabs_pos (c - x)).
    replace (h * h) with (Rabs h * Rabs h)
      by (rewrite <- Rabs_mult; apply Rabs_pos_eq; nra).
    apply Rle_trans with (M * Rabs (c - x) * Rabs h).
    { apply Rmult_le_compat_r; assumption. }
    rewrite Rmult_assoc. apply Rmult_le_compat_l; [lra|].
    apply Rmult_le_compat_r; assumption.
Qed.

Lemma RInt_param_derivable x :
  derivable_pt_lim (fun y => RInt (g y) (Hg y) 0 1) x
                   (RInt (g' x) (Hg' x) 0 1).
Proof.
  intros eps Heps.
  assert (Hdel : 0 < eps / M) by (apply Rdiv_lt_0_compat; assumption).
  exists (mkposreal _ Hdel). cbn [pos]. intros h Hh0 Hh.
  pose (K := fun s => RInt (g (x + h)) (Hg (x + h)) 0 s
                      - RInt (g x) (Hg x) 0 s
                      - h * RInt (g' x) (Hg' x) 0 s).
  pose (k := fun s => g (x + h) s - g x s - h * g' x s).
  destruct (MVT_cor2 K k 0 1) as (c & Hc & _); [lra | |].
  { intros c _. unfold K, k.
    apply (derivable_pt_lim_minus
             (fun s => RInt (g (x + h)) (Hg (x + h)) 0 s
                       - RInt (g x) (Hg x) 0 s)
             (fun s => h * RInt (g' x) (Hg' x) 0 s)).
    - apply (derivable_pt_lim_minus
               (fun s => RInt (g (x + h)) (Hg (x + h)) 0 s)
               (fun s => RInt (g x) (Hg x) 0 s)); apply RInt_derivable.
    - apply (derivable_pt_lim_scal (fun s => RInt (g' x) (Hg' x) 0 s)).
      apply RInt_derivable. }
  assert (HK1 : K 1 = k c).
  { unfold K at 2 in Hc. rewrite !RInt_point in Hc. lra. }
  replace ((RInt (g (x + h)) (Hg (x + h)) 0 1 - RInt (g x) (Hg x) 0 1) / h
           - RInt (g' x) (Hg' x) 0 1) with (K 1 / h)
    by (unfold K; field; assumption).
  rewrite HK1. unfold Rdiv. rewrite Rabs_mult, Rabs_inv.
  pose proof (param_remainder x h c) as Hrem. fold (k c) in Hrem.
  assert (Hah : 0 < Rabs h) by (apply Rabs_pos_lt; assumption).
  apply Rle_lt_trans with (M * Rabs h).
  - apply Rmult_le_reg_r with (Rabs h); [assumption|].
    rewrite Rmult_assoc, Rinv_l by lra.
    replace (h * h) with (Rabs h * Rabs h) in Hrem
      by (rewrite <- Rabs_mult; apply Rabs_pos_eq; nra).
    lra.
  - apply Rmult_lt_reg_r with (/ M); [now apply Rinv_0_lt_compat|].
    replace (M * Rabs h * / M) with (Rabs h) by (field; lra).
    exact Hh.
Qed.

End ParamIntegral.

End Calculus.

(** ** The error function and the normal distribution function *)

Module NormalFacts.

Import Normal Calculus.

Lemma kernel_deriv x t : derivable_pt_lim (fun y => kernel y t) x (kernel' x t).
Proof.
  unfold kernel, kernel'. dl.
  field. nra.
Qed.

Lemma kernel'_deriv x t :
  derivable_pt_lim (fun y => kernel' y t) x (kernel'' x t).
Proof.
  unfold kernel'', kernel'. dl. ring.
Qed.

Lemma exp_neg_le_1 u : 0 <= u -> exp (- u) <= 1.
Proof.
  intros Hu. rewrite <- exp_0. destruct Hu as [Hu| <-].
  - left. apply exp_increasing. lra.
  - rewrite Ropp_0. lra.
Qed.

Lemma mul_exp_neg_le_1 u : 0 <= u -> u * exp (- u) <= 1.
Proof.
  intros Hu. rewrite exp_Ropp.
  assert (H : u < exp u).
  { destruct Hu as [Hu| <-].
    - assert (Hn : u <> 0) by lra. pose proof (exp_ineq1 u Hn). lra.
    - rewrite exp_0. lra. }
  assert (He : 0 < exp u) by apply exp_pos.
  apply Rmult_le_reg_r with (exp u); [assumption|].
  rewrite Rmult_assoc, Rinv_l by lra. lra.
Qed.

Lemma kernel''_bound x t : Rabs (kernel'' x t) <= 6.
Proof.
  unfold kernel''. set (u := x * x * (1 + t * t)).
  assert (Hu : 0 <= u) by (unfold u; nra).
  pose proof (exp_neg_le_1 u Hu). pose proof (mul_exp_neg_le_1 u Hu).
  pose proof (exp_pos (- u)).
  apply Rabs_le. split; nra.
Qed.

Lemma kernel'_lipschitz x y t :
  Rabs (kernel' y t - kernel' x t) <= 6 * Rabs (y - x).
Proof.
  destruct (MVT_abs (fun z => kernel' z t) (fun z => kernel'' z t) x y)
    as (c & Hc & _).
  - intros c _. apply kernel'_deriv.
  - cbv beta in Hc. rewrite Hc.
    apply Rmult_le_compat_r; [apply Rabs_pos | apply kernel''_bound].
Qed.

Lemma J_deriv x :
  derivable_pt_lim J x (RInt (kernel' x) (kernel'_continuity x) 0 1).
Proof.
  unfold J.
  apply (RInt_param_derivable kernel kernel' kernel_continuity
           kernel'_continuity 6).
  - lra.
  - intros; apply kernel_deriv.
  - intros; apply kernel'_lipschitz.
Qed.

Lemma gauss_int_deriv x : derivable_pt_lim gauss_int x (gauss x).
Proof. unfold gauss_int. apply RInt_derivable. Qed.

Lemma gauss_int_0 : gauss_int 0 = 0.
Proof. unfold gauss_int. apply RInt_point. Qed.

Lemma kernel'_integral x :
  RInt (kernel' x) (kernel'_continuity x) 0 1 = -2 * gauss x * gauss_int x.
Proof.
  rewrite (RInt_FTC (kernel' x) (kernel'_continuity x)
             (fun t => -2 * gauss x * gauss_int (x * t))).
  - rewrite Rmult_1_r, Rmult_0_r, gauss_int_0. ring.
  - intros t.
    eapply dlim_eq2.
    + apply (dl_mult (fun _ => -2 * gauss x) (fun t => gauss_int (x * t))).
      * apply dl_const.
      * apply (dl_comp (fun t => x * t) gauss_int).
        -- apply (dl_mult (fun _ => x) (fun t => t));
             [apply dl_const | apply dl_id].
        -- apply gauss_int_deriv.
    + cbv beta. unfold kernel', gauss.
      replace (- (x * x * (1 + t * t)))
        with (- (x * x) + - (x * t * (x * t))) by ring.
      rewrite exp_plus. ring.
Qed.

Lemma gauss_J_deriv x :
  derivable_pt_lim (fun y => gauss_int y * gauss_int y + J y) x 0.
Proof.
  eapply dlim_eq2.
  - apply (dl_plus (fun y => gauss_int y * gauss_int y) J).
    + apply (dl_mult gauss_int gauss_int); apply gauss_int_deriv.
    + apply J_deriv.
  - rewrite kernel'_integral. ring.
Qed.

Lemma J_0 : J 0 = PI / 4.
Proof.
  unfold J. rewrite (RInt_FTC (kernel 0) (kernel_continuity 0) atan).
  - rewrite atan_1, atan_0. ring.
  - intros t. eapply dlim_eq2; [apply derivable_pt_lim_atan|].
    unfold kernel. replace (- (0 * 0 * (1 + t * t))) with 0 by ring.
    rewrite exp_0. unfold Rsqr. field; nra.
Qed.

Lemma J_pos x : 0 < J x.
Proof.
  unfold J.
  destruct (MVT_cor2 (fun s => RInt (kernel x) (kernel_continuity x) 0 s)
              (kernel x) 0 1)
    as (c & Hc & _); [lra | intros; apply RInt_derivable |].
  rewrite RInt_point in Hc.
  replace (RInt (kernel x) (kernel_continuity x) 0 1)
    with (kernel x c * (1 - 0)) by lra.
  unfold kernel. rewrite Rminus_0_r, Rmult_1_r.
  apply Rdiv_lt_0_compat; [apply exp_pos | nra].
Qed.

(** The Gaussian integral over a bounded interval stays below its limit. *)
Lemma gauss_int_sqr_bound x : gauss_int x * gauss_int x < PI / 4.
Proof.
  pose proof (null_derivative_const _ gauss_J_deriv x 0) as H. cbv beta in H.
  rewrite gauss_int_0, J_0 in H. pose proof (J_pos x). lra.
Qed.

Lemma sqrt_PI_pos : 0 < sqrt PI.
Proof. apply sqrt_lt_R0, PI_RGT_0. Qed.

Lemma sqrt_2_pos : 0 < sqrt 2.
Proof. apply sqrt_lt_R0; lra. Qed.

Lemma erf_bounds x : -1 < erf x < 1.
Proof.
  unfold erf. pose proof sqrt_PI_pos as Hp.
  pose proof (gauss_int_sqr_bound x) as Hb.
  assert (Hsq : sqrt PI * sqrt PI = PI)
    by (apply sqrt_sqrt; left; apply PI_RGT_0).
  set (e := gauss_int x) in *.
  assert (He : - (sqrt PI / 2) < e < sqrt PI / 2) by (split; nra).
  assert (E : 2 / sqrt PI * e = e / (sqrt PI / 2)) by (field; lra).
  rewrite E. clear E.
  assert (Hq : e / (sqrt PI / 2) * (sqrt PI / 2) = e) by (field; lra).
  set (q := e / (sqrt PI / 2)) in *. split; nra.
Qed.


Lemma gauss_int_odd x : gauss_int (- x) = - gauss_int x.
Proof.
  assert (H : forall y,
             derivable_pt_lim (fun y => gauss_int y + gauss_int (- y)) y 0).
  { intros y. eapply dlim_eq2.
    - apply (dl_plus gauss_int (fun y => gauss_int (- y))).
      + apply gauss_int_deriv.
      + apply (dl_comp (fun y => - y) gauss_int).
        * apply (dl_opp (fun y => y)). apply dl_id.
        * apply gauss_int_deriv.
    - cbv beta. unfold gauss. replace (- y * - y) with (y * y) by ring. ring. }
  pose proof (null_derivative_const _ H x 0) as E. cbv beta in E.
  rewrite Ropp_0, gauss_int_0 in E. lra.
Qed.

Lemma erf_odd x : erf (- x) = - erf x.
Proof. unfold erf. rewrite gauss_int_odd. ring. Qed.

Lemma norm_cdf_opp x : norm_cdf (- x) = 1 - norm_cdf x.
Proof.
  unfold norm_cdf.
  replace (- x / sqrt 2) with (- (x / sqrt 2))
    by (field; pose proof sqrt_2_pos; lra).
  rewrite erf_odd. field.
Qed.

Lemma norm_cdf_0 : norm_cdf 0 = 1 / 2.
Proof.
  unfold norm_cdf, erf.
  replace (0 / sqrt 2) with 0 by (field; pose proof sqrt_2_pos; lra).
  rewrite gauss_int_0. field. pose proof sqrt_PI_pos; lra.
Qed.

Lemma norm_pdf_pos x : 0 < norm_pdf x.
Proof.
  unfold norm_pdf. apply Rdiv_lt_0_compat; [apply exp_pos|].
  apply sqrt_lt_R0. pose proof PI_RGT_0. lra.
Qed.

(** The distribution function is a primitive of the density. *)
Lemma norm_cdf_deriv x : derivable_pt_lim norm_cdf x (norm_pdf x).
Proof.
  pose proof sqrt_2_pos as H2. pose proof sqrt_PI_pos as Hp.
  unfold norm_cdf, erf.
  eapply dlim_eq2.
  - apply dl_div_const. apply dl_plus; [apply dl_const|].
    apply (dl_mult (fun _ => 2 / sqrt PI) (fun y => gauss_int (y / sqrt 2))).
    + apply dl_const.
    + apply (dl_comp (fun y => y / sqrt 2) gauss_int).
      * apply dl_div_const. apply dl_id.
      * apply gauss_int_deriv.
  - cbv beta. unfold norm_pdf, gauss.
    replace (- (x / sqrt 2 * (x / sqrt 2))) with (- (x * x) / 2).
    2:{ replace (x / sqrt 2 * (x / sqrt 2)) with (x * x / (sqrt 2 * sqrt 2))
          by (field; lra).
        rewrite sqrt_sqrt by lra. field. }
    rewrite sqrt_mult by (pose proof PI_RGT_0; lra).
    field. lra.
Qed.

Lemma norm_cdf_increasing x y : x < y -> norm_cdf x < norm_cdf y.
Proof.
  intros Hxy.
  destruct (MVT_cor2 norm_cdf norm_pdf x y Hxy) as (c & Hc & _).
  - intros c _. apply norm_cdf_deriv.
  - pose proof (norm_pdf_pos c). nra.
Qed.

Lemma norm_pdf_shift y s :
  norm_pdf (y - s) = norm_pdf y * exp (s * y - s * s / 2).
Proof.
  unfold norm_pdf. unfold Rdiv at 3.
  rewrite (Rmult_comm (exp _) (/ _)), Rmult_assoc.
  rewrite <- exp_plus. unfold Rdiv. rewrite (Rmult_comm (exp _)).
  f_equal. f_equal. field.
Qed.

Lemma norm_pdf_const x : norm_pdf x = pdf_const * exp (- (x * x / 2)).
Proof.
  unfold norm_pdf, pdf_const.
  replace (- (x * x) / 2) with (- (x * x / 2)) by field.
  unfold Rdiv. ring.
Qed.

End NormalFacts.

(** ** Numeric enclosures *)

Module Numerics.

Import Normal Calculus NormalFacts.

Lemma exp_neg_ge_1 u : 0 <= u -> 1 - u <= exp (- u).
Proof.
  intros Hu.
  pose proof (nonneg_from_zero (fun u => exp (- u) - (1 - u))
                (fun u => 1 - exp (- u))) as H.
  cbv beta in H. enough (0 <= exp (- u) - (1 - u)) by lra.
  apply H; try assumption.
  - rewrite Ropp_0, exp_0. ring.
  - intros x. dl. ring.
  - intros x Hx. pose proof (exp_neg_le_1 x Hx). lra.
Qed.

Lemma exp_neg_le_2 u : 0 <= u -> exp (- u) <= 1 - u + u * u / 2.
Proof.
  intros Hu.
  pose proof (nonneg_from_zero (fun u => 1 - u + u * u / 2 - exp (- u))
                (fun u => exp (- u) - (1 - u))) as H.
  cbv beta in H. enough (0 <= 1 - u + u * u / 2 - exp (- u)) by lra.
  apply H; try assumption.
  - rewrite Ropp_0, exp_0. field.
  - intros x. dl. field.
  - intros x Hx. pose proof (exp_neg_ge_1 x Hx). lra.
Qed.

Lemma exp_neg_ge_3 u : 0 <= u -> exp_lower3 u <= exp (- u).
Proof.
  intros Hu. unfold exp_lower3.
  pose proof (nonneg_from_zero
                (fun u => exp (- u) - (1 - u + u * u / 2 - u * u * u / 6))
                (fun u => 1 - u + u * u / 2 - exp (- u))) as H.
  cbv beta in H.
  enough (0 <= exp (- u) - (1 - u + u * u / 2 - u * u * u / 6)) by lra.
  apply H; try assumption.
  - rewrite Ropp_0, exp_0. field.
  - intros x. dl. field.
  - intros x Hx. pose proof (exp_neg_le_2 x Hx). lra.
Qed.

Lemma exp_neg_le_4 u : 0 <= u -> exp (- u) <= exp_upper4 u.
Proof.
  intros Hu. unfold exp_upper4, exp_lower3.
  pose proof (nonneg_from_zero
                (fun u => 1 - u + u * u / 2 - u * u * u / 6
                          + u * u * u * u / 24 - exp (- u))
                (fun u => exp (- u)
                          - (1 - u + u * u / 2 - u * u * u / 6))) as H.
  cbv beta in H.
  enough (0 <= 1 - u + u * u / 2 - u * u * u / 6 + u * u * u * u / 24
               - exp (- u)) by lra.
  apply H; try assumption.
  - rewrite Ropp_0, exp_0. field.
  - intros x. dl. field.
  - intros x Hx. pose proof (exp_neg_ge_3 x Hx). unfold exp_lower3 in *. lra.
Qed.

Lemma PI_bounds : 3.1415926 < PI < 3.1415927.
Proof.
  pose proof (PI_2_3_7_ineq 3) as [Hlo Hhi].
  unfold sum_f_R0, tg_alt, PI_2_3_7_tg, Ratan_seq in Hlo, Hhi.
  cbn [Nat.mul Nat.add pow INR] in Hlo, Hhi.
  split; lra.
Qed.

Lemma pdf_const_bounds : 0.3989422 < pdf_const < 0.3989423.
Proof.
  pose proof PI_bounds as [Hlo Hhi].
  assert (Hs : 0 < sqrt (2 * PI)) by (apply sqrt_lt_R0; lra).
  assert (Hsq : sqrt (2 * PI) * sqrt (2 * PI) = 2 * PI)
    by (apply sqrt_sqrt; lra).
  assert (Hc : 0 < pdf_const) by (apply Rinv_0_lt_compat; exact Hs).
  assert (Hcs : pdf_const * sqrt (2 * PI) = 1)
    by (unfold pdf_const; field; lra).
  assert (Hcc : pdf_const * pdf_const * (2 * PI) = 1).
  { rewrite <- Hsq.
    transitivity ((pdf_const * sqrt (2 * PI)) * (pdf_const * sqrt (2 * PI)));
      [ring|].
    rewrite Hcs. ring. }
  set (c := pdf_const) in *.
  split.
  - destruct (Rlt_le_dec 0.3989422 c) as [H|H]; [exact H|exfalso].
    assert (c * c <= 0.3989422 * 0.3989422) by nra. nra.
  - destruct (Rlt_le_dec c 0.3989423) as [H|H]; [exact H|exfalso].
    assert (0.3989423 * 0.3989423 <= c * c) by nra. nra.
Qed.

Lemma norm_cdf_lower x :
  0 <= x -> 1 / 2 + pdf_const * cdf_lower x <= norm_cdf x.
Proof.
  intros Hx.
  pose proof (nonneg_from_zero
    (fun x => norm_cdf x - (1 / 2 + pdf_const * cdf_lower x))
    (fun x => pdf_const * (exp (- (x * x / 2)) - exp_lower3 (x * x / 2))))
    as H.
  cbv beta in H.
  enough (0 <= norm_cdf x - (1 / 2 + pdf_const * cdf_lower x)) by lra.
  apply H; try assumption.
  - rewrite norm_cdf_0. unfold cdf_lower. field.
  - intros y. eapply dlim_eq2.
    + apply dl_minus; [apply norm_cdf_deriv|].
      apply dl_plus; [apply dl_const|].
      apply (dl_mult (fun _ => pdf_const) cdf_lower); [apply dl_const|].
      unfold cdf_lower. dl. reflexivity.
    + cbv beta. rewrite norm_pdf_const. unfold exp_lower3. field.
  - intros y Hy. assert (Hu : 0 <= y * y / 2) by nra.
    pose proof (exp_neg_ge_3 _ Hu). pose proof pdf_const_bounds. nra.
Qed.

Lemma norm_cdf_upper x :
  0 <= x -> norm_cdf x <= 1 / 2 + pdf_const * cdf_upper x.
Proof.
  intros Hx.
  pose proof (nonneg_from_zero
    (fun x => 1 / 2 + pdf_const * cdf_upper x - norm_cdf x)
    (fun x => pdf_const * (exp_upper4 (x * x / 2) - exp (- (x * x / 2)))))
    as H.
  cbv beta in H.
  enough (0 <= 1 / 2 + pdf_const * cdf_upper x - norm_cdf x) by lra.
  apply H; try assumption.
  - rewrite norm_cdf_0. unfold cdf_upper, cdf_lower. field.
  - intros y. eapply dlim_eq2.
    + apply dl_minus; [|apply norm_cdf_deriv].
      apply dl_plus; [apply dl_const|].
      apply (dl_mult (fun _ => pdf_const) cdf_upper); [apply dl_const|].
      unfold cdf_upper, cdf_lower. dl. reflexivity.
    + cbv beta. rewrite norm_pdf_const. unfold exp_upper4, exp_lower3. field.
  - intros y Hy. assert (Hu : 0 <= y * y / 2) by nra.
    pose proof (exp_neg_le_4 _ Hu). pose proof pdf_const_bounds. nra.
Qed.

Lemma norm_cdf_quarter : 0.59870630 < norm_cdf 0.25 < 0.59870635.
Proof.
  assert (Hq : 0 <= 0.25) by lra.
  pose proof (norm_cdf_lower _ Hq) as Hlo.
  pose proof (norm_cdf_upper _ Hq) as Hhi.
  pose proof pdf_const_bounds as [Hc1 Hc2].
  unfold cdf_upper, cdf_lower in *. split; lra.
Qed.

Lemma exp_hundredth : 0.9900498 < exp (- (0.01)) < 0.9900499.
Proof.
  assert (Hq : 0 <= 0.01) by lra.
  pose proof (exp_neg_ge_3 _ Hq) as Hlo. pose proof (exp_neg_le_4 _ Hq) as Hhi.
  unfold exp_upper4, exp_lower3 in *. split; lra.
Qed.

End Numerics.

(** ** The price as a function of the futures price *)

Module PriceFacts.

Import Normal Calculus NormalFacts.

Section Optimality.

Variables F K s : R.
Hypothesis HF : 0 < F.
Hypothesis HK : 0 < K.
Hypothesis Hs : 0 < s.

Lemma payoff_gap_deriv y :
  derivable_pt_lim (payoff_gap F K s) y (payoff_gap' F K s y).
Proof.
  unfold payoff_gap, payoff_gap'. eapply dlim_eq2.
  - apply dl_minus.
    + apply (dl_mult (fun _ => F) norm_cdf);
        [apply dl_const | apply norm_cdf_deriv].
    + apply (dl_mult (fun _ => K) (fun y => norm_cdf (y - s)));
        [apply dl_const|].
      apply (dl_comp (fun y => y - s) norm_cdf).
      * apply dl_minus; [apply dl_id | apply dl_const].
      * apply norm_cdf_deriv.
  - cbv beta. rewrite norm_pdf_shift. ring.
Qed.

Lemma dstar_eq : s * dstar F K s - s * s / 2 = ln (F / K).
Proof. unfold dstar. field. lra. Qed.

Lemma exp_ln_ratio : exp (ln (F / K)) = F / K.
Proof. apply exp_ln. apply Rdiv_lt_0_compat; assumption. Qed.

Lemma payoff_gap'_pos y : y < dstar F K s -> 0 < payoff_gap' F K s y.
Proof.
  intros Hy. unfold payoff_gap'.
  apply Rmult_lt_0_compat; [apply norm_pdf_pos|].
  assert (H : exp (s * y - s * s / 2) < F / K).
  { rewrite <- exp_ln_ratio, <- dstar_eq. apply exp_increasing. nra. }
  assert (E : K * (F / K) = F) by (field; lra).
  pose proof (Rmult_lt_compat_l K _ _ HK H). lra.
Qed.

Lemma payoff_gap'_neg y : dstar F K s < y -> payoff_gap' F K s y < 0.
Proof.
  intros Hy. unfold payoff_gap'.
  assert (H : F / K < exp (s * y - s * s / 2)).
  { rewrite <- exp_ln_ratio, <- dstar_eq. apply exp_increasing. nra. }
  assert (E : K * (F / K) = F) by (field; lra).
  pose proof (Rmult_lt_compat_l K _ _ HK H).
  pose proof (norm_pdf_pos y). nra.
Qed.

(** The argument [d1] of the pricing formula maximises the gap. *)
Lemma payoff_gap_max y : payoff_gap F K s y <= payoff_gap F K s (dstar F K s).
Proof.
  destruct (Rtotal_order y (dstar F K s)) as [H|[H|H]].
  - destruct (MVT_cor2 (payoff_gap F K s) (payoff_gap' F K s) y _ H)
      as (c & Hc & Hcb).
    + intros; apply payoff_gap_deriv.
    + pose proof (payoff_gap'_pos c (proj2 Hcb)). nra.
  - subst. lra.
  - destruct (MVT_cor2 (payoff_gap F K s) (payoff_gap' F K s) _ y H)
      as (c & Hc & Hcb).
    + intros; apply payoff_gap_deriv.
    + pose proof (payoff_gap'_neg c (proj1 Hcb)). nra.
Qed.

End Optimality.

Lemma spec_d1_dstar F K vol T :
  0 < T -> 0 < vol -> Spec.d1 F K vol T = dstar F K (vol * sqrt T).
Proof.
  intros HT Hv. unfold Spec.d1, dstar.
  assert (Hs : 0 < sqrt T) by (apply sqrt_lt_R0; assumption).
  assert (E : sqrt T * sqrt T = T) by (apply sqrt_sqrt; lra).
  assert (E2 : vol * sqrt T * (vol * sqrt T) / 2 = 0.5 * vol ^ 2 * T).
  { transitivity (vol * vol * (sqrt T * sqrt T) / 2);
      [field | rewrite E; lra]. }
  rewrite E2. reflexivity.
Qed.



End PriceFacts.

(** ** Results of the two evaluations *)

Module ResultFacts.

Import PyDatetime Normal Black76 EngineFacts.

Lemma tag_c : Spec.tag "c" = Some Spec.CALL.
Proof. reflexivity. Qed.

Lemma tag_p : Spec.tag "p" = Some Spec.PUT.
Proof. reflexivity. Qed.

Lemma get_price_returns_inv self F t p :
  get_price self F t = Return p ->
  Spec.defined F (_strike_price self) (_vol self) (_calc_maturity self t).
Proof.
  unfold get_price. cbv zeta. intros H.
  apply bind_returns_inv in H as (d1 & Hd1 & _).
  now apply calc_d1_returns_inv in Hd1.
Qed.

Lemma get_delta_returns_inv self F t p :
  get_delta self F t = Return p ->
  Spec.defined F (_strike_price self) (_vol self) (_calc_maturity self t).
Proof.
  unfold get_delta. cbv zeta. intros H.
  apply bind_returns_inv in H as (d1 & Hd1 & _).
  now apply calc_d1_returns_inv in Hd1.
Qed.

Lemma get_price_call self F t :
  let T := _calc_maturity self t in
  Spec.defined F (_strike_price self) (_vol self) T ->
  _option_type self = "c"%string ->
  get_price self F t
  = Return (Spec.price Spec.CALL F (_strike_price self) (_vol self)
              (_discount_rate self) T).
Proof.
  intros T Hd Hc.
  rewrite (get_price_after_d1 self F t _ (calc_d1_defined self F T Hd)).
  rewrite Hc. reflexivity.
Qed.

Lemma get_price_put self F t :
  let T := _calc_maturity self t in
  Spec.defined F (_strike_price self) (_vol self) T ->
  _option_type self = "p"%string ->
  get_price self F t
  = Return (Spec.price Spec.PUT F (_strike_price self) (_vol self)
              (_discount_rate self) T).
Proof.
  intros T Hd Hc.
  rewrite (get_price_after_d1 self F t _ (calc_d1_defined self F T Hd)).
  rewrite Hc. reflexivity.
Qed.

Lemma get_delta_call self F t :
  let T := _calc_maturity self t in
  Spec.defined F (_strike_price self) (_vol self) T ->
  _option_type self = "c"%string ->
  get_delta self F t
  = Return (Spec.delta Spec.CALL F (_strike_price self) (_vol self)
              (_discount_rate self) T).
Proof.
  intros T Hd Hc.
  rewrite (get_delta_after_d1 self F t _ (calc_d1_defined self F T Hd)).
  rewrite Hc. reflexivity.
Qed.

Lemma get_delta_put self F t :
  let T := _calc_maturity self t in
  Spec.defined F (_strike_price self) (_vol self) T ->
  _option_type self = "p"%string ->
  get_delta self F t
  = Return (Spec.delta Spec.PUT F (_strike_price self) (_vol self)
              (_discount_rate self) T).
Proof.
  intros T Hd Hc.
  rewrite (get_delta_after_d1 self F t _ (calc_d1_defined self F T Hd)).
  rewrite Hc. reflexivity.
Qed.

Lemma get_price_undefined self F t :
  ~ Spec.defined F (_strike_price self) (_vol self) (_calc_maturity self t) ->
  get_price self F t = Raise float_division_by_zero \/
  get_price self F t = Raise math_domain_error.
Proof.
  intros Hn. destruct (calc_d1_undefined _ _ _ Hn) as [E|E];
    [left | right]; now apply get_price_propagates.
Qed.

Lemma get_delta_undefined self F t :
  ~ Spec.defined F (_strike_price self) (_vol self) (_calc_maturity self t) ->
  get_delta self F t = Raise float_division_by_zero \/
  get_delta self F t = Raise math_domain_error.
Proof.
  intros Hn. destruct (calc_d1_undefined _ _ _ Hn) as [E|E];
    [left | right]; now apply get_delta_propagates.
Qed.

Lemma defined_dec F K vol T :
  Spec.defined F K vol T \/ ~ Spec.defined F K vol T.
Proof.
  unfold Spec.defined.
  destruct (Req_EM_T K 0); [right; tauto|].
  destruct (Rlt_dec 0 (F / K)); [|right; tauto].
  destruct (Rlt_dec 0 T); [|right; tauto].
  destruct (Req_EM_T vol 0); [right; tauto|].
  left; tauto.
Qed.

(** On a constructed engine neither evaluation raises the error of an
    unrecognised option type. *)
Lemma no_option_type_error self F t :
  constructed self ->
  get_price self F t <> Raise InvalidOptionType /\
  get_delta self F t <> Raise InvalidOptionType.
Proof.
  intros Hc. apply constructed_option_type in Hc.
  destruct (defined_dec F (_strike_price self) (_vol self) (_calc_maturity self t))
    as [Hd|Hd].
  - destruct Hc as [Hc|Hc].
    + rewrite (get_price_call _ _ _ Hd Hc), (get_delta_call _ _ _ Hd Hc).
      split; discriminate.
    + rewrite (get_price_put _ _ _ Hd Hc), (get_delta_put _ _ _ Hd Hc).
      split; discriminate.
  - split.
    + destruct (get_price_undefined _ _ _ Hd) as [E|E]; rewrite E; discriminate.
    + destruct (get_delta_undefined _ _ _ Hd) as [E|E]; rewrite E; discriminate.
Qed.

Lemma defined_positive K vol T F :
  0 < K -> 0 < F -> 0 < T -> 0 < vol -> Spec.defined F K vol T.
Proof.
  intros HK HF HT Hv. repeat split; try lra.
  apply Rdiv_lt_0_compat; assumption.
Qed.


End ResultFacts.

(** ** The self-test scenario, evaluated *)

Module ScenarioFacts.

Import PyDatetime Normal Black76 EngineFacts ResultFacts NormalFacts Scenario.

Lemma scenario_days : days (sub expiry curr_time) = 365%Z.
Proof. vm_compute. reflexivity. Qed.

Lemma scenario_maturity ot :
  _calc_maturity (mk_engine 100 expiry 0.5 0.01 ot) curr_time = 1.
Proof.
  unfold _calc_maturity. cbn [_expiry_date]. rewrite scenario_days. lra.
Qed.

Lemma scenario_defined : Spec.defined 100 100 0.5 1.
Proof. repeat split; lra. Qed.

Lemma scenario_d1 : Spec.d1 100 100 0.5 1 = 0.25.
Proof.
  unfold Spec.d1. replace (100 / 100) with 1 by lra.
  rewrite ln_1, sqrt_1. lra.
Qed.

Lemma scenario_calc_d1 ot :
  _calc_d1 (mk_engine 100 expiry 0.5 0.01 ot) 100 1 = Return 0.25.
Proof.
  rewrite calc_d1_defined by exact scenario_defined.
  cbn [_strike_price _vol]. now rewrite scenario_d1.
Qed.

Lemma opt_constructed : constructed opt.
Proof. apply constructed_mk. now left. Qed.

Lemma opt_put_constructed : constructed opt_put.
Proof. apply constructed_mk. now right. Qed.

Lemma scenario_delta_call :
  get_delta opt 100 curr_time = Return (exp (- (0.01) * 1) * norm_cdf 0.25).
Proof.
  rewrite (get_delta_after_d1 opt 100 curr_time 0.25).
  - unfold opt at 1. cbn [_option_type String.eqb Ascii.eqb Bool.eqb].
    unfold opt at 1. cbn [_discount_rate].
    unfold opt. now rewrite scenario_maturity.
  - unfold opt. rewrite scenario_maturity. apply scenario_calc_d1.
Qed.

Lemma scenario_delta_put :
  get_delta opt_put 100 curr_time
  = Return (exp (- (0.01) * 1) * (norm_cdf 0.25 - 1)).
Proof.
  rewrite (get_delta_after_d1 opt_put 100 curr_time 0.25).
  - unfold opt_put at 1. cbn [_option_type String.eqb Ascii.eqb Bool.eqb].
    unfold opt_put at 1. cbn [_discount_rate].
    unfold opt_put. now rewrite scenario_maturity.
  - unfold opt_put. rewrite scenario_maturity. apply scenario_calc_d1.
Qed.

Lemma scenario_price_call :
  get_price opt 100 curr_time
  = Return (exp (- (0.01) * 1)
            * (100 * norm_cdf 0.25 - 100 * norm_cdf (0.25 - 0.5 * sqrt 1))).
Proof.
  rewrite (get_price_after_d1 opt 100 curr_time 0.25).
  - unfold opt at 1. cbn [_option_type String.eqb Ascii.eqb Bool.eqb].
    unfold opt at 1 2 3. cbn [_discount_rate _strike_price _vol].
    unfold opt. now rewrite scenario_maturity.
  - unfold opt. rewrite scenario_maturity. apply scenario_calc_d1.
Qed.

Lemma scenario_time_to_maturity : Spec.time_to_maturity expiry curr_time = 1.
Proof.
  unfold Spec.time_to_maturity.
  replace (Spec.whole_days expiry curr_time) with 365%Z
    by (vm_compute; reflexivity).
  lra.
Qed.

Lemma scenario_defined_spec :
  Spec.defined 100 100 0.5 (Spec.time_to_maturity expiry curr_time).
Proof. rewrite scenario_time_to_maturity. exact scenario_defined. Qed.

(** A price below zero is returned as it is. *)
Lemma get_price_negative_example :
  constructed opt_neg /\
  exists price, get_price opt_neg (-100) curr_time = Return price /\ price < 0.
Proof.
  split; [apply constructed_mk; now left|].
  assert (HT : _calc_maturity opt_neg curr_time = 1).
  { unfold _calc_maturity. cbn [opt_neg _expiry_date].
    rewrite scenario_days. lra. }
  assert (Hd : Spec.defined (-100) (_strike_price opt_neg) (_vol opt_neg)
                 (_calc_maturity opt_neg curr_time)).
  { rewrite HT. cbn [opt_neg _strike_price _vol]. repeat split; lra. }
  eexists. split; [apply (get_price_call _ _ _ Hd eq_refl)|].
  rewrite HT. cbn [opt_neg _strike_price _vol _discount_rate].
  unfold Spec.price, Spec.d2, Spec.discount_factor. cbv zeta.
  set (a := Spec.d1 (-100) (-100) 0.5 1).
  assert (Hs : 0 < 0.5 * sqrt 1) by (rewrite sqrt_1; lra).
  pose proof (norm_cdf_increasing (a - 0.5 * sqrt 1) a ltac:(lra)) as Hinc.
  pose proof (exp_pos (- (0.01) * 1)). nra.
Qed.

End ScenarioFacts.

(** ** The evaluation in binary64 at concrete inputs *)

Module Binary64Facts.

Import PrimFloat.
Import PyDatetime Binary64.
Local Open Scope float_scope.

(** The self-test: the time to maturity is exactly 1, the price printed is
    19.544836266473975 and the delta 0.5927490982069539; the delta of the
    put is -0.3973007355422142. *)
Lemma self_test_values :
  _calc_maturity opt curr_time = 1 /\
  get_price recorded opt 100 curr_time = Return 0x1.38b7a63ba2e33p+4 /\
  get_delta recorded opt 100 curr_time = Return 0x1.2f7ccf4f10916p-1 /\
  get_delta recorded opt_put 100 curr_time = Return (-0x1.96d60107527cfp-2).
Proof. repeat split; vm_compute; reflexivity. Qed.

(** The errors are those of the exact evaluation: the division error at
    the expiry, the domain error after it and for a negative futures
    price. *)
Lemma self_test_errors :
  get_price recorded opt 100 expiry = Raise float_division_by_zero /\
  get_delta recorded opt 100 (mk_datetime 2022 11 1 12 0 0 1)
  = Raise math_domain_error /\
  get_price recorded opt (-100) curr_time = Raise math_domain_error /\
  get_delta recorded (mk_engine 0 expiry 0x1p-1 0x1.47ae147ae147bp-7 "c")
            100 curr_time
  = Raise float_division_by_zero.
Proof. repeat split; vm_compute; reflexivity. Qed.


(** The same at any last digit of the discount factor: the product of a
    finite number and [0.0] is [0.0]. *)
Lemma get_delta_zero_any_discount :
  forallb (fun D =>
    match get_delta (returning D 0) low_vol 1 curr_time with
    | Return delta => negb (0 <? delta)
    | Raise _ => false
    end) (within 4 0x1.fae7cfd2b9cfep-1) = true.
Proof. vm_compute. reflexivity. Qed.


(** For the same values of [norm.cdf] and [exp] the two deltas are in
    their ranges, [[0, D]] and [[- D, 0]], and their difference is within
    four units of rounding of the discount factor [D]. *)
Lemma delta_difference_close :
  forallb (fun D =>
    forallb (fun p =>
      match get_delta (returning D p) opt 25 curr_time,
            get_delta (returning D p) opt_put 25 curr_time with
      | Return dc, Return dp =>
          (0 <=? dc) && (dc <=? D) && (- D <=? dp) && (dp <=? 0)
          && (abs (dc - dp - D) <=? 4 * 0x1p-53 * D)
      | _, _ => false
      end) (within 8 0x1.7dbab8156ddd0p-8))
    (within 1 0x1.fae7cfd2b9cfep-1) = true.
Proof. vm_compute. reflexivity. Qed.


(** Moving the valuation time by whole days: one day before the expiry
    the time to maturity is 1/365 and seven days later it is -6/365, the
    quotient of the new count of days; taking 7/365 from the first gives
    -0.016438356164383564, not that quotient, -0.01643835616438356. *)
Lemma maturity_steps_rounded :
  _calc_maturity opt (mk_datetime 2022 10 31 12 0 0 0)
  = of_int 1 / of_int 365 /\
  _calc_maturity opt (mk_datetime 2022 11 7 12 0 0 0)
  = of_int (1 - 7) / of_int 365 /\
  (_calc_maturity opt (mk_datetime 2022 10 31 12 0 0 0)
   - of_int 7 / of_int 365
   =? _calc_maturity opt (mk_datetime 2022 11 7 12 0 0 0)) = false.
Proof. repeat split; vm_compute; reflexivity. Qed.

(** Scaling the strike and the futures price of the self-test by five: the
    price is 97.724181332369824, five times the price of the self-test is
    97.724181332369881; they differ, by less than one part in [2 ^ 40] of
    the discounted strike and futures price. *)
Lemma price_scaled_by_five :
  exists price scaled,
    get_price recorded opt 100 curr_time = Return price /\
    get_price recorded (mk_engine 500 expiry 0x1p-1 0x1.47ae147ae147bp-7 "c")
              500 curr_time = Return scaled /\
    scaled = 0x1.86e58fca8b9bcp+6 /\ 5 * price = 0x1.86e58fca8b9c0p+6 /\
    (abs (scaled - 5 * price)
     <=? 0x1p-40 * (0x1.fae7cfd2b9cfep-1 * (5 * (100 + 100)))) = true.
Proof.
  exists 0x1.38b7a63ba2e33p+4, 0x1.86e58fca8b9bcp+6.
  repeat split; vm_compute; reflexivity.
Qed.

(** With the volatility negated the call of the self-test is priced minus
    the price of the put. *)
Lemma negative_volatility_price :
  get_price recorded
            (mk_engine 100 expiry (-0x1p-1) 0x1.47ae147ae147bp-7 "c")
            100 curr_time
  = Return (-0x1.38b7a63ba2e33p+4) /\
  get_price recorded opt_put 100 curr_time = Return 0x1.38b7a63ba2e33p+4.
Proof. split; vm_compute; reflexivity. Qed.

End Binary64Facts.

(** ** What rounding can and cannot change in a delta *)

Module RoundingFacts.

Import Rounded.

Lemma u_bounds : 0 < u < / 1000.
Proof.
  unfold u. split.
  - apply Rinv_0_lt_compat. apply pow_lt. lra.
  - apply Rinv_lt_contravar.
    + apply Rmult_lt_0_compat; [lra | apply pow_lt; lra].
    + replace 1000 with (1000 * 1 ^ 43) by (rewrite pow1; ring).
      replace (2 ^ 53) with (2 ^ 10 * 2 ^ 43) by (rewrite <- pow_add; reflexivity).
      assert (H43 : 1 ^ 43 <= 2 ^ 43) by (apply pow_incr; lra).
      assert (0 < 1 ^ 43) by (apply pow_lt; lra).
      assert (H10 : 1000 < 2 ^ 10) by lra.
      nra.
Qed.


(** A rounding that preserves the order and leaves the numbers of the format
    unchanged keeps a delta in its range. *)
Section Monotone.

Variable rnd : R -> R.
Hypothesis rnd_monotone : forall x y, x <= y -> rnd x <= rnd y.
Hypothesis rnd_0 : rnd 0 = 0.
Hypothesis rnd_m1 : rnd (- 1) = - 1.

Variables D p : R.
Hypothesis D_nonneg : 0 <= D.
Hypothesis D_number : rnd D = D.
Hypothesis D_opp_number : rnd (- D) = - D.
Hypothesis p_range : 0 <= p <= 1.

Lemma call_delta_range : 0 <= call_delta rnd D p <= D.
Proof.
  unfold call_delta. split.
  - rewrite <- rnd_0. apply rnd_monotone. nra.
  - rewrite <- D_number at 2. apply rnd_monotone. nra.
Qed.

Lemma put_delta_range : - D <= put_delta rnd D p <= 0.
Proof.
  unfold put_delta.
  assert (Hm : - 1 <= rnd (p - 1) <= 0).
  { split.
    - rewrite <- rnd_m1. apply rnd_monotone. lra.
    - rewrite <- rnd_0. apply rnd_monotone. lra. }
  split.
  - rewrite <- D_opp_number. apply rnd_monotone. nra.
  - rewrite <- rnd_0. apply rnd_monotone. nra.
Qed.

End Monotone.

(** A rounding with relative error [u], and absolute error [eta] where the
    result is too small for the relative bound, brings the difference of
    the two deltas to within four units of rounding of the discount
    factor. *)
Section RelativeError.

Variable rnd : R -> R.
Variable eta : R.
Hypothesis eta_nonneg : 0 <= eta.
Hypothesis rnd_error : forall x, Rabs (rnd x - x) <= u * Rabs x + eta.

Lemma Rabs_le_bounds x a : Rabs x <= a -> - a <= x <= a.
Proof.
  intros H. pose proof (Rle_abs x). pose proof (Rle_abs (- x)) as Hn.
  rewrite Rabs_Ropp in Hn. lra.
Qed.

Lemma rnd_error_bounds x a :
  Rabs x <= a -> - (u * a + eta) <= rnd x - x <= u * a + eta.
Proof.
  intros Ha. pose proof (rnd_error x) as H. pose proof u_bounds as [Hu _].
  assert (H' : Rabs (rnd x - x) <= u * a + eta) by nra.
  apply Rabs_le_bounds in H'. lra.
Qed.

Lemma delta_difference_bound D p :
  0 <= D -> 0 <= p <= 1 ->
  Rabs (delta_difference rnd D p - D) <= 4 * u * D + 4 * (1 + D) * eta.
Proof.
  intros HD Hp. pose proof u_bounds as [Hu0 Hu1].
  unfold delta_difference, call_delta, put_delta.
  set (m := rnd (p - 1)). set (dc := rnd (D * p)). set (dp := rnd (D * m)).
  (* the products that occur, each non-negative *)
  set (A := u * D * p). set (B := u * D * (1 - p)).
  set (C := u * B). set (C' := u * A).
  set (G := D * eta). set (E := u * G).
  assert (HA : 0 <= A) by (unfold A; repeat apply Rmult_le_pos; lra).
  assert (HB : 0 <= B) by (unfold B; repeat apply Rmult_le_pos; lra).
  assert (HC : 0 <= C) by (unfold C; apply Rmult_le_pos; lra).
  assert (HC' : 0 <= C') by (unfold C'; apply Rmult_le_pos; lra).
  assert (HG : 0 <= G) by (unfold G; apply Rmult_le_pos; lra).
  assert (HE : 0 <= E) by (unfold E; apply Rmult_le_pos; lra).
  assert (HCs : C <= / 1000 * B) by (unfold C; apply Rmult_le_compat_r; lra).
  assert (HCs' : C' <= / 1000 * A) by (unfold C'; apply Rmult_le_compat_r; lra).
  assert (HEs : E <= / 1000 * G) by (unfold E; apply Rmult_le_compat_r; lra).
  (* the four roundings *)
  assert (H1 : - (A + eta) <= dc - D * p <= A + eta).
  { replace (A + eta) with (u * (D * p) + eta) by (unfold A; ring).
    apply rnd_error_bounds. rewrite Rabs_pos_eq; [lra|].
    apply Rmult_le_pos; lra. }
  assert (H2 : - (u * (1 - p) + eta) <= m - (p - 1) <= u * (1 - p) + eta).
  { apply rnd_error_bounds. rewrite Rabs_left1; lra. }
  assert (H2' : - (B + G) <= D * (m - (p - 1)) <= B + G).
  { replace (B + G) with (D * (u * (1 - p) + eta)) by (unfold B, G; ring).
    replace (- (D * (u * (1 - p) + eta)))
      with (D * - (u * (1 - p) + eta)) by ring.
    split; apply Rmult_le_compat_l; lra. }
  set (am := (1 - p) * (1 + u) + eta).
  assert (Hm : Rabs m <= am).
  { unfold am. apply Rabs_le.
    replace ((1 - p) * (1 + u)) with (1 - p + u * (1 - p)) by ring.
    split; lra. }
  assert (H3 : - (B + C + E + eta) <= dp - D * m <= B + C + E + eta).
  { replace (B + C + E + eta) with (u * (D * am) + eta)
      by (unfold E, C, G, B, am; ring).
    apply rnd_error_bounds. rewrite Rabs_mult, (Rabs_pos_eq D HD).
    apply Rmult_le_compat_l; assumption. }
  set (x := dc - dp).
  set (b := 2 * A + 2 * B + C + C' + 2 * eta + G + E).
  assert (Hx : - b <= x - D <= b).
  { unfold x, b.
    replace (dc - dp - D)
      with ((dc - D * p) - D * (m - (p - 1)) - (dp - D * m)) by ring.
    split; lra. }
  assert (Hb : 0 <= b) by (unfold b; lra).
  assert (H4 : - (u * (D + b) + eta) <= rnd x - x <= u * (D + b) + eta).
  { apply rnd_error_bounds. apply Rabs_le. split; lra. }
  assert (HuD : u * D = A + B) by (unfold A, B; ring).
  assert (Hub : u * b <= / 1000 * b) by (apply Rmult_le_compat_r; lra).
  assert (Hub0 : 0 <= u * b) by (apply Rmult_le_pos; lra).
  replace (u * (D + b)) with (A + B + u * b) in H4 by (rewrite <- HuD; ring).
  replace (4 * u * D + 4 * (1 + D) * eta)
    with (4 * (A + B) + 4 * eta + 4 * G) by (rewrite <- HuD; unfold G; ring).
  apply Rabs_le. unfold b in *. split; lra.
Qed.

End RelativeError.

(** Exact arithmetic is the rounding that changes nothing. *)
Lemma delta_difference_exact D p :
  delta_difference (fun x => x) D p = D.
Proof. unfold delta_difference, call_delta, put_delta. ring. Qed.

End RoundingFacts.

(** ** The claims of the specification *)

Import PyDatetime Normal Black76 EngineFacts ResultFacts.
Import NormalFacts PriceFacts Numerics Scenario ScenarioFacts.


(** C1.  On a constructed engine [get_price] returns the discounted
    Black-76 value: for a call
    [exp (- r * T) * (F * Phi d1 - K * Phi d2)], for a put
    [exp (- r * T) * (K * Phi (- d2) - F * Phi (- d1))], with [T], [d1] and
    [d2] recomputed from the inputs; the value is returned as it is, with no
    clamping.  Where a step of the formula is undefined the numeric error is
    raised instead. *)
Theorem get_price_formula (self : EuropeanOptionOnFuture)
    (futures_price : R) (valuation_time : datetime) :
  constructed self ->
  let K := _strike_price self in
  let vol := _vol self in
  let r := _discount_rate self in
  let T := Spec.time_to_maturity (_expiry_date self) valuation_time in
  let d1 := Spec.d1 futures_price K vol T in
  let d2 := Spec.d2 futures_price K vol T in
  (Spec.defined futures_price K vol T ->
   (_option_type self = "c"%string ->
    get_price self futures_price valuation_time
    = Return (exp (- r * T)
              * (futures_price * norm_cdf d1 - K * norm_cdf d2))) /\
   (_option_type self = "p"%string ->
    get_price self futures_price valuation_time
    = Return (exp (- r * T)
              * (K * norm_cdf (- d2) - futures_price * norm_cdf (- d1))))) /\
  (~ Spec.defined futures_price K vol T ->
   get_price self futures_price valuation_time = Raise float_division_by_zero
   \/ get_price self futures_price valuation_time = Raise math_domain_error) /\
  (_option_type self = "c"%string \/ _option_type self = "p"%string).
Proof.
  intros Hc K vol r T d1 d2. subst K vol r T d1 d2.
  rewrite <- calc_maturity_spec. split; [|split].
  - intros Hd. split; intros Hot.
    + rewrite (get_price_call _ _ _ Hd Hot). reflexivity.
    + rewrite (get_price_put _ _ _ Hd Hot). reflexivity.
  - apply get_price_undefined.
  - now apply constructed_option_type.
Qed.

Lemma get_price_formula_witness :
  constructed opt /\
  get_price opt 100 curr_time
  = Return (exp (- (0.01) * Spec.time_to_maturity expiry curr_time)
            * (100 * norm_cdf (Spec.d1 100 100 0.5
                                 (Spec.time_to_maturity expiry curr_time))
               - 100 * norm_cdf (Spec.d2 100 100 0.5
                                   (Spec.time_to_maturity expiry curr_time)))).
Proof.
  split; [exact opt_constructed|].
  destruct (get_price_formula opt 100 curr_time opt_constructed) as [H _].
  apply H; [exact scenario_defined_spec | reflexivity].
Defined.

(** C2.  On a constructed engine [get_delta] returns
    [exp (- r * T) * Phi d1] for a call and [exp (- r * T) * (Phi d1 - 1)]
    for a put, with [T] and [d1] recomputed from the inputs. *)
Theorem get_delta_formula (self : EuropeanOptionOnFuture)
    (futures_price : R) (valuation_time : datetime) :
  constructed self ->
  let K := _strike_price self in
  let vol := _vol self in
  let r := _discount_rate self in
  let T := Spec.time_to_maturity (_expiry_date self) valuation_time in
  let d1 := Spec.d1 futures_price K vol T in
  (Spec.defined futures_price K vol T ->
   (_option_type self = "c"%string ->
    get_delta self futures_price valuation_time
    = Return (exp (- r * T) * norm_cdf d1)) /\
   (_option_type self = "p"%string ->
    get_delta self futures_price valuation_time
    = Return (exp (- r * T) * (norm_cdf d1 - 1)))) /\
  (~ Spec.defined futures_price K vol T ->
   get_delta self futures_price valuation_time = Raise float_division_by_zero
   \/ get_delta self futures_price valuation_time = Raise math_domain_error) /\
  (_option_type self = "c"%string \/ _option_type self = "p"%string).
Proof.
  intros Hc K vol r T d1. subst K vol r T d1.
  rewrite <- calc_maturity_spec. split; [|split].
  - intros Hd. split; intros Hot.
    + rewrite (get_delta_call _ _ _ Hd Hot). reflexivity.
    + rewrite (get_delta_put _ _ _ Hd Hot). reflexivity.
  - apply get_delta_undefined.
  - now apply constructed_option_type.
Qed.

Lemma get_delta_formula_witness :
  constructed opt_put /\
  get_delta opt_put 100 curr_time
  = Return (exp (- (0.01) * Spec.time_to_maturity expiry curr_time)
            * (norm_cdf (Spec.d1 100 100 0.5
                           (Spec.time_to_maturity expiry curr_time)) - 1)).
Proof.
  split; [exact opt_put_constructed|].
  destruct (get_delta_formula opt_put 100 curr_time opt_put_constructed)
    as [H _].
  apply H; [exact scenario_defined_spec | reflexivity].
Defined.

(** C3.  [_calc_d1] returns
    [(ln (F / K) + 0.5 * vol ^ 2 * T) / (vol * sqrt T)], and [get_price]
    takes [d2 = d1 - vol * sqrt T].  With [T = 0] or [vol = 0] the division
    by zero, and with [T < 0] the square root of a negative number, is
    raised as the error of the runtime and reaches the caller of
    [get_price] and [get_delta] unchanged: nothing catches it and no
    fallback value is returned. *)
Theorem calc_d1_formula (self : EuropeanOptionOnFuture)
    (futures_price time_to_maturity : R) :
  let K := _strike_price self in
  let vol := _vol self in
  (Spec.defined futures_price K vol time_to_maturity ->
   _calc_d1 self futures_price time_to_maturity
   = Return ((ln (futures_price / K) + 0.5 * vol ^ 2 * time_to_maturity)
             / (vol * sqrt time_to_maturity))) /\
  (forall t d1,
     _calc_d1 self futures_price (_calc_maturity self t) = Return d1 ->
     let d2 := d1 - vol * sqrt (_calc_maturity self t) in
     get_price self futures_price t =
       if (_option_type self =? "c")%string then
         Return (exp (- _discount_rate self * _calc_maturity self t)
                 * (futures_price * norm_cdf d1 - K * norm_cdf d2))
       else if (_option_type self =? "p")%string then
         Return (exp (- _discount_rate self * _calc_maturity self t)
                 * (K * norm_cdf (- d2) - futures_price * norm_cdf (- d1)))
       else Raise InvalidOptionType) /\
  (time_to_maturity = 0 \/ vol = 0 \/ time_to_maturity < 0 ->
   raises (_calc_d1 self futures_price time_to_maturity)) /\
  (K <> 0 -> 0 < futures_price / K ->
   (time_to_maturity = 0 \/ (vol = 0 /\ 0 <= time_to_maturity) ->
    _calc_d1 self futures_price time_to_maturity
    = Raise float_division_by_zero) /\
   (time_to_maturity < 0 ->
    _calc_d1 self futures_price time_to_maturity = Raise math_domain_error)) /\
  (forall t ex,
     _calc_d1 self futures_price (_calc_maturity self t) = Raise ex ->
     get_price self futures_price t = Raise ex /\
     get_delta self futures_price t = Raise ex).
Proof.
  intros K vol. split; [|split; [|split; [|split]]].
  - intros Hd. now rewrite (calc_d1_defined _ _ _ Hd).
  - intros t d1 Hd1 d2. apply (get_price_after_d1 self futures_price t d1 Hd1).
  - intros H.
    destruct (calc_d1_undefined self futures_price time_to_maturity) as [E|E].
    + intros (_ & _ & HT & Hv). fold vol in Hv. lra.
    + eexists; exact E.
    + eexists; exact E.
  - intros HK HFK. rewrite calc_d1_cases. cbv zeta. fold K vol.
    destruct (Req_EM_T K 0) as [?|_]; [contradiction|].
    destruct (Rlt_dec 0 (futures_price / K)) as [_|?]; [|contradiction].
    split.
    + intros H. destruct (Rlt_dec time_to_maturity 0) as [HT|HT]; [lra|].
      destruct (Req_EM_T (vol * sqrt time_to_maturity) 0) as [_|Hz];
        [reflexivity|].
      exfalso. apply Hz. destruct H as [-> | [-> _]].
      * rewrite sqrt_0. ring.
      * ring.
    + intros HT. destruct (Rlt_dec time_to_maturity 0); [reflexivity | lra].
  - intros t ex H. split;
      [now apply get_price_propagates | now apply get_delta_propagates].
Qed.

Lemma calc_d1_formula_witness :
  _calc_d1 opt 100 1 = Return ((ln (100 / 100) + 0.5 * 0.5 ^ 2 * 1)
                               / (0.5 * sqrt 1)) /\
  _calc_d1 opt 100 0 = Raise float_division_by_zero /\
  _calc_d1 opt 100 (-1) = Raise math_domain_error.
Proof.
  split; [|split].
  - apply (calc_d1_formula opt 100 1). exact scenario_defined.
  - apply (calc_d1_formula opt 100 0); [cbn; lra | cbn; lra | now left].
  - apply (calc_d1_formula opt 100 (-1)); [cbn; lra | cbn; lra | lra].
Defined.

(** C4.  [_calc_maturity] is the number of whole days from the valuation
    time to the expiry, divided by 365: the elapsed time is rounded down to
    whole days, a leap day counts as a day, and no other adjustment is made.
    At the expiry the result is zero and after it the result is negative;
    neither case is treated apart. *)
Theorem calc_maturity_whole_days (self : EuropeanOptionOnFuture)
    (valuation_time : datetime) :
  let elapsed :=
    (to_microseconds (_expiry_date self) - to_microseconds valuation_time)%Z in
  let n := Spec.whole_days (_expiry_date self) valuation_time in
  _calc_maturity self valuation_time = IZR n / 365 /\
  (n * 86400000000 <= elapsed < (n + 1) * 86400000000)%Z /\
  (valid (_expiry_date self) -> valid valuation_time ->
   match compare valuation_time (_expiry_date self) with
   | Eq => _calc_maturity self valuation_time = 0
   | Gt => _calc_maturity self valuation_time < 0
   | Lt => 0 <= _calc_maturity self valuation_time
   end).
Proof.
  intros elapsed n.
  assert (Hn : n = (elapsed / 86400000000)%Z) by reflexivity.
  assert (HT : _calc_maturity self valuation_time = IZR n / 365)
    by apply calc_maturity_spec.
  split; [exact HT|]. split.
  { rewrite Hn. pose proof (Z.div_mod elapsed 86400000000 ltac:(lia)).
    pose proof (Z.mod_pos_bound elapsed 86400000000 ltac:(lia)). lia. }
  intros He Ht. rewrite HT.
  rewrite (DatetimeFacts.compare_to_microseconds _ _ Ht He).
  destruct (Z.compare_spec (to_microseconds valuation_time)
              (to_microseconds (_expiry_date self))) as [E|L|L].
  - assert (n = 0)%Z as -> by (rewrite Hn; unfold elapsed; rewrite E, Z.sub_diag; reflexivity).
    lra.
  - assert (0 <= n)%Z by (rewrite Hn; apply Z.div_pos; lia).
    apply IZR_le in H. lra.
  - assert (n < 0)%Z by (rewrite Hn; apply Z.div_lt_upper_bound; lia).
    apply IZR_lt in H. lra.
Qed.

Lemma calc_maturity_whole_days_witness :
  _calc_maturity opt curr_time = 365 / 365 /\
  _calc_maturity opt expiry = 0 /\
  _calc_maturity opt (mk_datetime 2022 11 1 12 0 0 1) < 0 /\
  _calc_maturity (mk_engine 100 (mk_datetime 2025 1 1 0 0 0 0) 0.5 0.01 "c")
                 (mk_datetime 2024 1 1 0 0 0 0) = 366 / 365.
Proof.
  assert (Hv : forall u, (0 <= u < 1000000)%Z ->
                         valid (mk_datetime 2022 11 1 12 0 0 u)).
  { intros u Hu. unfold valid.
    cbn [year month day hour minute second microsecond].
    replace (days_in_month 2022 11) with 30%Z by (vm_compute; reflexivity).
    lia. }
  split; [|split; [|split]].
  - exact (proj1 (calc_maturity_whole_days opt curr_time)).
  - apply (calc_maturity_whole_days opt expiry); apply Hv; lia.
  - apply (calc_maturity_whole_days opt (mk_datetime 2022 11 1 12 0 0 1));
      apply Hv; lia.
  - exact (proj1 (calc_maturity_whole_days
                    (mk_engine 100 (mk_datetime 2025 1 1 0 0 0 0) 0.5 0.01 "c")
                    (mk_datetime 2024 1 1 0 0 0 0))).
Defined.

(** C5.  [__init__] raises the error of an unrecognised option type exactly
    when the option type is neither ['c'] nor ['p'], and returns the engine
    holding its five arguments for either recognised value.  The error is
    raised by the constructor itself: on an engine that [__init__] returned,
    neither [get_price] nor [get_delta] raises it. *)
Theorem init_validates_option_type (strike_price : R) (expiry_date : datetime)
    (vol discount_rate : R) (option_type : string) :
  (__init__ strike_price expiry_date vol discount_rate option_type
   = Raise InvalidOptionType
   <-> option_type <> "c"%string /\ option_type <> "p"%string) /\
  (__init__ strike_price expiry_date vol discount_rate option_type
   = Raise InvalidOptionType
   <-> Spec.tag option_type = None) /\
  (__init__ strike_price expiry_date vol discount_rate option_type
   = Return (mk_engine strike_price expiry_date vol discount_rate option_type)
   <-> option_type = "c"%string \/ option_type = "p"%string) /\
  (forall self futures_price valuation_time,
     __init__ strike_price expiry_date vol discount_rate option_type
     = Return self ->
     get_price self futures_price valuation_time <> Raise InvalidOptionType /\
     get_delta self futures_price valuation_time <> Raise InvalidOptionType).
Proof.
  split; [|split; [|split]].
  - split.
    + intros H. split; intros ->; discriminate H.
    + intros [Hc Hp]. now apply init_unrecognised.
  - unfold __init__, not_in, Spec.tag. cbn [existsb].
    destruct (option_type =? "c")%string; [split; discriminate|].
    destruct (option_type =? "p")%string; [split; discriminate|].
    split; reflexivity.
  - split.
    + intros H. now apply init_returns_inv in H.
    + apply init_recognised.
  - intros self F t H. apply no_option_type_error.
    now exists strike_price, expiry_date, vol, discount_rate, option_type.
Qed.

Lemma init_validates_option_type_witness :
  __init__ 100 expiry 0.5 0.01 "call" = Raise InvalidOptionType /\
  __init__ 100 expiry 0.5 0.01 "p" = Return opt_put.
Proof.
  split.
  - apply (init_validates_option_type 100 expiry 0.5 0.01 "call").
    split; discriminate.
  - apply (init_validates_option_type 100 expiry 0.5 0.01 "p"). now right.
Defined.







(** C9.  The scenario of the self-test: strike 100, volatility 0.5, expiry
    2022-11-01 12:00:00, discount rate 0.01, a call, evaluated at futures
    price 100 on 2021-11-01 12:00:00.  The time to maturity is exactly
    365 / 365 = 1, the price is within 0.0001 of 19.544836 and the delta
    within 0.0001 of 0.59273. *)
Theorem end_to_end_scenario :
  exists opt,
    __init__ 100 (mk_datetime 2022 11 1 12 0 0 0) 0.5 0.01 "c" = Return opt /\
    days (sub (_expiry_date opt) (mk_datetime 2021 11 1 12 0 0 0)) = 365%Z /\
    _calc_maturity opt (mk_datetime 2021 11 1 12 0 0 0) = 1 /\
    (exists price,
       get_price opt 100 (mk_datetime 2021 11 1 12 0 0 0) = Return price /\
       Rabs (price - 19.544836) <= 0.0001) /\
    (exists delta,
       get_delta opt 100 (mk_datetime 2021 11 1 12 0 0 0) = Return delta /\
       Rabs (delta - 0.59273) <= 0.0001).
Proof.
  exists Scenario.opt. fold expiry curr_time.
  pose proof norm_cdf_quarter as [Hn1 Hn2].
  pose proof exp_hundredth as [He1 He2].
  split; [reflexivity|]. split; [exact scenario_days|].
  split; [apply scenario_maturity|]. split.
  - eexists. split; [apply scenario_price_call|].
    rewrite sqrt_1. replace (0.25 - 0.5 * 1) with (- (0.25)) by lra.
    rewrite norm_cdf_opp. replace (- (0.01) * 1) with (- (0.01)) by lra.
    apply Rabs_le. split; nra.
  - eexists. split; [apply scenario_delta_call|].
    replace (- (0.01) * 1) with (- (0.01)) by lra.
    apply Rabs_le. split; nra.
Qed.

(** C10.  On a constructed engine the stored option type is ['c'] or ['p'],
    so the last branch of [get_price] and of [get_delta] is never taken:
    neither raises the error of an unrecognised option type. *)
Theorem fallthrough_unreachable (self : EuropeanOptionOnFuture) :
  constructed self ->
  (_option_type self = "c"%string \/ _option_type self = "p"%string) /\
  (forall futures_price valuation_time,
     get_price self futures_price valuation_time <> Raise InvalidOptionType /\
     get_delta self futures_price valuation_time <> Raise InvalidOptionType).
Proof.
  intros Hc. split.
  - now apply constructed_option_type.
  - intros F t. now apply no_option_type_error.
Qed.

Lemma fallthrough_unreachable_witness :
  constructed opt /\
  get_price opt 100 curr_time <> Raise InvalidOptionType /\
  get_delta opt 100 curr_time <> Raise InvalidOptionType.
Proof.
  split; [exact opt_constructed|].
  exact (proj2 (fallthrough_unreachable opt opt_constructed) 100 curr_time).
Defined.

(** * Further properties of the code *)

(** ** The tails of the distribution function *)

Module TailFacts.

Import Normal Calculus NormalFacts PriceFacts Auxiliary.

(** The tail of the Gaussian integral. *)

Lemma J_upper x : J x <= exp (- (x * x)) * (PI / 4).
Proof.
  pose proof (nonneg_from_zero
    (fun s => exp (- (x * x)) * atan s - RInt (kernel x) (kernel_continuity x) 0 s)
    (fun s => exp (- (x * x)) * / (1 + s * s) - kernel x s)) as H.
  cbv beta in H.
  assert (H1 : 0 <= exp (- (x * x)) * atan 1
                    - RInt (kernel x) (kernel_continuity x) 0 1).
  { apply H; [| | | lra].
    - rewrite atan_0, RInt_point. ring.
    - intros s. apply dl_minus; [|apply RInt_derivable].
      eapply dlim_eq2.
      + apply (dl_mult (fun _ => exp (- (x * x))) atan);
          [apply dl_const | apply derivable_pt_lim_atan].
      + cbv beta. replace (s ^ 2) with (s * s) by ring. ring.
    - intros s Hs. unfold kernel. unfold Rdiv.
      assert (Hp : 0 < / (1 + s * s)) by (apply Rinv_0_lt_compat; nra).
      assert (He : exp (- (x * x * (1 + s * s))) <= exp (- (x * x))).
      { destruct (Req_dec (x * x * (s * s)) 0) as [E|E].
        - right. f_equal. nra.
        - left. apply exp_increasing. nra. }
      nra. }
  rewrite atan_1 in H1. unfold J. lra.
Qed.

Lemma gauss_int_nonneg x : 0 <= x -> 0 <= gauss_int x.
Proof.
  intros Hx. apply (nonneg_from_zero gauss_int gauss); try assumption.
  - apply gauss_int_0.
  - apply gauss_int_deriv.
  - intros y _. left. apply exp_pos.
Qed.

Lemma gauss_int_sqr_eq x : gauss_int x * gauss_int x = PI / 4 - J x.
Proof.
  pose proof (null_derivative_const _ gauss_J_deriv x 0) as H. cbv beta in H.
  rewrite gauss_int_0, J_0 in H. lra.
Qed.

Lemma erf_nonneg x : 0 <= x -> 0 <= erf x.
Proof.
  intros Hx. unfold erf. pose proof (gauss_int_nonneg x Hx).
  pose proof sqrt_PI_pos.
  apply Rmult_le_pos; [|assumption].
  apply Rlt_le, Rdiv_lt_0_compat; lra.
Qed.

Lemma erf_sqr_lower x : 1 - exp (- (x * x)) <= erf x * erf x.
Proof.
  unfold erf. pose proof sqrt_PI_pos as Hp.
  assert (Hsq : sqrt PI * sqrt PI = PI)
    by (apply sqrt_sqrt; left; apply PI_RGT_0).
  replace (2 / sqrt PI * gauss_int x * (2 / sqrt PI * gauss_int x))
    with (4 / (sqrt PI * sqrt PI) * (gauss_int x * gauss_int x))
    by (field; lra).
  rewrite Hsq, gauss_int_sqr_eq. pose proof (J_upper x) as HJ.
  pose proof PI_RGT_0 as HPI.
  replace (4 / PI * (PI / 4 - J x)) with (1 - 4 / PI * J x) by (field; lra).
  assert (4 / PI * J x <= 4 / PI * (exp (- (x * x)) * (PI / 4))).
  { apply Rmult_le_compat_l; [|exact HJ].
    apply Rlt_le, Rdiv_lt_0_compat; lra. }
  replace (4 / PI * (exp (- (x * x)) * (PI / 4))) with (exp (- (x * x))) in H
    by (field; lra).
  lra.
Qed.

(** The lower tail of the distribution function. *)
Lemma norm_cdf_tail z : z <= 0 -> norm_cdf z <= exp (- (z * z) / 2) / 2.
Proof.
  intros Hz. pose proof sqrt_2_pos as H2.
  assert (Hq : 0 <= - z / sqrt 2).
  { apply Rmult_le_pos; [lra|]. left. now apply Rinv_0_lt_compat. }
  unfold norm_cdf.
  replace (z / sqrt 2) with (- (- z / sqrt 2)) by (field; lra).
  rewrite erf_odd.
  pose proof (erf_nonneg _ Hq) as He0. pose proof (erf_bounds (- z / sqrt 2)) as [_ He1].
  pose proof (erf_sqr_lower (- z / sqrt 2)) as Hl.
  replace (- (- z / sqrt 2 * (- z / sqrt 2))) with (- (z * z) / 2) in Hl.
  2:{ replace (- z / sqrt 2 * (- z / sqrt 2)) with (z * z / (sqrt 2 * sqrt 2))
        by (field; lra).
      rewrite sqrt_sqrt by lra. field. }
  set (e := erf (- z / sqrt 2)) in *. nra.
Qed.






End TailFacts.

(** ** Where the distribution function rounds to 0 and to 1 *)

Module SaturationFacts.

Import Normal Calculus NormalFacts Numerics TailFacts.

Lemma exp_scaled (n : nat) x : exp (INR n * x) = exp x ^ n.
Proof.
  induction n as [|n IH].
  - simpl. rewrite Rmult_0_l. apply exp_0.
  - rewrite S_INR, Rmult_plus_distr_r, Rmult_1_l, exp_plus, IH. simpl. ring.
Qed.

Lemma exp_half_bound : exp (- (1 / 2)) <= 233 / 384.
Proof.
  pose proof (exp_neg_le_4 (1 / 2) ltac:(lra)) as H.
  unfold exp_upper4, exp_lower3 in H. lra.
Qed.

(** [exp (- 7) <= 2 ^ -10]. *)
Lemma exp_seven_bound : exp (- (1 / 2)) ^ 14 <= / 2 ^ 10.
Proof.
  pose proof exp_half_bound as H. pose proof (exp_pos (- (1 / 2))) as Hp.
  apply Rle_trans with ((233 / 384) ^ 14).
  - apply pow_incr. lra.
  - cbn [pow]. lra.
Qed.

Lemma exp_half_pow (n k : nat) :
  exp (- (1 / 2)) ^ (14 * n + k) <= / 2 ^ (10 * n).
Proof.
  pose proof (exp_pos (- (1 / 2))) as Hp.
  assert (H1 : exp (- (1 / 2)) <= 1).
  { pose proof (exp_increasing (- (1 / 2)) 0 ltac:(lra)) as Hi.
    rewrite exp_0 in Hi. lra. }
  rewrite pow_add, !pow_mult, <- pow_inv.
  rewrite <- (Rmult_1_r ((/ 2 ^ 10) ^ n)).
  apply Rmult_le_compat.
  - apply pow_le. apply pow_le. lra.
  - apply pow_le. lra.
  - apply pow_incr. split; [apply pow_le; lra | apply exp_seven_bound].
  - apply Rle_trans with (1 ^ k); [apply pow_incr; lra | rewrite pow1; lra].
Qed.

Lemma inv_pow2_le (n m : nat) : (n <= m)%nat -> / 2 ^ m <= / 2 ^ n.
Proof.
  intros H. apply Rinv_le_contravar; [apply pow_lt; lra|].
  apply Rle_pow; [lra | exact H].
Qed.

Lemma inv_pow2_half (n : nat) : / 2 ^ n / 2 = / 2 ^ S n.
Proof.
  simpl. field. apply pow_nonzero. lra.
Qed.

(** Below [-40] the distribution function is less than [2 ^ -1075], half
    the least positive binary64 number: the nearest binary64 number is
    zero. *)
Lemma norm_cdf_below x : x <= - 40 -> norm_cdf x < / 2 ^ 1075.
Proof.
  intros Hx.
  apply Rle_lt_trans with (exp (- (x * x) / 2) / 2);
    [apply norm_cdf_tail; lra|].
  assert (He : exp (- (x * x) / 2) <= exp (INR 1600 * - (1 / 2))).
  { destruct (Req_dec (- (x * x) / 2) (INR 1600 * - (1 / 2))) as [->|Hn];
      [lra|].
    left. apply exp_increasing.
    replace (INR 1600) with 1600 in * by (rewrite INR_IZR_INZ; reflexivity).
    nra. }
  rewrite exp_scaled in He.
  pose proof (exp_half_pow 114 4) as Hp.
  change (14 * 114 + 4)%nat with 1600%nat in Hp.
  change (10 * 114)%nat with 1140%nat in Hp.
  pose proof (inv_pow2_le 1075 1140 ltac:(lia)) as Hq.
  pose proof (inv_pow2_half 1075) as Hh.
  assert (H0 : 0 < / 2 ^ 1075) by (apply Rinv_0_lt_compat, pow_lt; lra).
  lra.
Qed.

(** Above [9] the distribution function is within [2 ^ -54] of [1], half
    the distance from [1] to the binary64 number before it: the nearest
    binary64 number is [1]. *)
Lemma norm_cdf_above x : 9 <= x -> 1 - / 2 ^ 54 < norm_cdf x.
Proof.
  intros Hx.
  pose proof (norm_cdf_opp x) as Ho.
  pose proof (norm_cdf_tail (- x) ltac:(lra)) as Ht.
  replace (- x * - x) with (x * x) in Ht by ring.
  assert (He : exp (- (x * x) / 2) <= exp (INR 81 * - (1 / 2))).
  { destruct (Req_dec (- (x * x) / 2) (INR 81 * - (1 / 2))) as [->|Hn];
      [lra|].
    left. apply exp_increasing.
    replace (INR 81) with 81 in * by (rewrite INR_IZR_INZ; reflexivity).
    nra. }
  rewrite exp_scaled in He.
  pose proof (exp_pos (- (1 / 2))) as Hq.
  assert (H11 : exp (- (1 / 2)) ^ 11 <= / 2 ^ 4).
  { apply Rle_trans with ((233 / 384) ^ 11).
    - apply pow_incr. pose proof exp_half_bound. lra.
    - cbn [pow]. lra. }
  pose proof (exp_half_pow 5 0) as Hp.
  change (14 * 5 + 0)%nat with 70%nat in Hp.
  change (10 * 5)%nat with 50%nat in Hp.
  assert (H81 : exp (- (1 / 2)) ^ 81 <= / 2 ^ 50 * / 2 ^ 4).
  { change 81%nat with (70 + 11)%nat. rewrite pow_add.
    apply Rmult_le_compat; try (apply pow_le; lra); assumption. }
  assert (E : / 2 ^ 50 * / 2 ^ 4 = / 2 ^ 54).
  { rewrite <- Rinv_mult, <- pow_add. reflexivity. }
  assert (H0 : 0 < / 2 ^ 54) by (apply Rinv_0_lt_compat, pow_lt; lra).
  lra.
Qed.

End SaturationFacts.

(** ** Bounds and sensitivities of the price *)

Module GreeksFacts.

Import Normal Calculus NormalFacts PriceFacts Auxiliary TailFacts.

Section Valid.

Variables F K vol r T : R.
Hypothesis HF : 0 < F.
Hypothesis HK : 0 < K.
Hypothesis Hv : 0 < vol.
Hypothesis HT : 0 < T.

Lemma vol_sqrt_pos : 0 < vol * sqrt T.
Proof. apply Rmult_lt_0_compat; [|apply sqrt_lt_R0]; assumption. Qed.

Lemma ratio_exp_d1 :
  F / K = exp (vol * sqrt T * Spec.d1 F K vol T
               - vol * sqrt T * (vol * sqrt T) / 2).
Proof.
  rewrite (spec_d1_dstar F K vol T HT Hv).
  rewrite (dstar_eq F K (vol * sqrt T) vol_sqrt_pos).
  symmetry. apply exp_ln_ratio; assumption.
Qed.





End Valid.

(** Put-call parity, for any inputs. *)
Lemma spec_parity F K vol r T :
  Spec.price Spec.CALL F K vol r T - Spec.price Spec.PUT F K vol r T
  = Spec.discount_factor r T * (F - K).
Proof.
  unfold Spec.price. cbv zeta. rewrite !norm_cdf_opp. ring.
Qed.

(** [d1] as a function of the futures price. *)
Lemma d1_deriv F K vol T :
  0 < F -> 0 < K ->
  derivable_pt_lim (fun f => Spec.d1 f K vol T) F
                   (/ F / (vol * sqrt T)).
Proof.
  intros HF HK. unfold Spec.d1.
  apply dl_div_const. eapply dlim_eq2.
  - apply dl_plus; [|apply dl_const].
    apply (dl_comp (fun f => f / K) ln).
    + apply dl_div_const. apply dl_id.
    + apply derivable_pt_lim_ln. apply Rdiv_lt_0_compat; assumption.
  - field. split; lra.
Qed.

Lemma d1_increasing F1 F2 K vol T :
  0 < K -> 0 < vol -> 0 < T -> 0 < F1 -> F1 < F2 ->
  Spec.d1 F1 K vol T < Spec.d1 F2 K vol T.
Proof.
  intros HK Hv HT HF1 HF12. unfold Spec.d1.
  pose proof (vol_sqrt_pos vol T Hv HT) as Hs.
  apply Rmult_lt_compat_r; [now apply Rinv_0_lt_compat|].
  apply Rplus_lt_compat_r. apply ln_increasing.
  - apply Rdiv_lt_0_compat; assumption.
  - apply Rmult_lt_compat_r; [now apply Rinv_0_lt_compat | assumption].
Qed.

(** The delta is the derivative of the price in the futures price. *)
Lemma call_price_deriv F K vol r T :
  0 < F -> 0 < K -> 0 < vol -> 0 < T ->
  derivable_pt_lim (fun f => Spec.price Spec.CALL f K vol r T) F
                   (Spec.delta Spec.CALL F K vol r T).
Proof.
  intros HF HK Hv HT. pose proof (vol_sqrt_pos vol T Hv HT) as Hs.
  unfold Spec.price, Spec.delta, Spec.d2. cbv zeta.
  set (s := vol * sqrt T) in *. set (a := Spec.d1 F K vol T).
  eapply dlim_eq2.
  - apply (dl_mult (fun _ => Spec.discount_factor r T)
             (fun f => f * norm_cdf (Spec.d1 f K vol T)
                       - K * norm_cdf (Spec.d1 f K vol T - s)));
      [apply dl_const|].
    apply dl_minus.
    + apply (dl_mult (fun f => f) (fun f => norm_cdf (Spec.d1 f K vol T)));
        [apply dl_id|].
      apply (dl_comp (fun f => Spec.d1 f K vol T) norm_cdf);
        [apply d1_deriv; assumption | apply norm_cdf_deriv].
    + apply (dl_mult (fun _ => K) (fun f => norm_cdf (Spec.d1 f K vol T - s)));
        [apply dl_const|].
      apply (dl_comp (fun f => Spec.d1 f K vol T - s) norm_cdf).
      * apply dl_minus; [apply d1_deriv; assumption | apply dl_const].
      * apply norm_cdf_deriv.
  - cbv beta. fold s a. rewrite norm_pdf_shift.
    pose proof (ratio_exp_d1 F K vol T HF HK Hv HT) as R. fold s a in R.
    rewrite <- R. field. split; lra.
Qed.

Lemma put_price_deriv F K vol r T :
  0 < F -> 0 < K -> 0 < vol -> 0 < T ->
  derivable_pt_lim (fun f => Spec.price Spec.PUT f K vol r T) F
                   (Spec.delta Spec.PUT F K vol r T).
Proof.
  intros HF HK Hv HT.
  apply derivable_pt_lim_ext
    with (f := fun f => Spec.price Spec.CALL f K vol r T
                        - Spec.discount_factor r T * (f - K)).
  - intros f. pose proof (spec_parity f K vol r T). lra.
  - eapply dlim_eq2.
    + apply dl_minus; [apply call_price_deriv; assumption|].
      apply (dl_mult (fun _ => Spec.discount_factor r T) (fun f => f - K));
        [apply dl_const|].
      apply dl_minus; [apply dl_id | apply dl_const].
    + cbv beta. unfold Spec.delta. cbv zeta. ring.
Qed.

(** The price as a function of the volatility. *)
Lemma call_price_vol_increasing F K v1 v2 r T :
  0 < F -> 0 < K -> 0 < T -> 0 < v1 -> v1 < v2 ->
  Spec.price Spec.CALL F K v1 r T < Spec.price Spec.CALL F K v2 r T.
Proof.
  intros HF HK HT Hv1 Hv12. assert (Hv2 : 0 < v2) by lra.
  assert (Hq : 0 < sqrt T) by now apply sqrt_lt_R0.
  pose proof (vol_sqrt_pos v2 T Hv2 HT) as Hs2.
  assert (HD : 0 < Spec.discount_factor r T) by apply exp_pos.
  unfold Spec.price, Spec.d2. cbv zeta.
  apply Rmult_lt_compat_l; [assumption|].
  set (a := Spec.d1 F K v1 T).
  pose proof (payoff_gap_max F K (v2 * sqrt T) HF HK Hs2 a) as Hmax.
  unfold payoff_gap in Hmax.
  rewrite <- (spec_d1_dstar F K v2 T HT Hv2) in Hmax.
  assert (Hinc : norm_cdf (a - v2 * sqrt T) < norm_cdf (a - v1 * sqrt T))
    by (apply norm_cdf_increasing; nra).
  nra.
Qed.

Lemma put_price_vol_increasing F K v1 v2 r T :
  0 < F -> 0 < K -> 0 < T -> 0 < v1 -> v1 < v2 ->
  Spec.price Spec.PUT F K v1 r T < Spec.price Spec.PUT F K v2 r T.
Proof.
  intros HF HK HT Hv1 Hv12.
  pose proof (call_price_vol_increasing F K v1 v2 r T HF HK HT Hv1 Hv12).
  pose proof (spec_parity F K v1 r T). pose proof (spec_parity F K v2 r T).
  lra.
Qed.






End GreeksFacts.

(** ** Outcomes of the evaluations *)

Module OutcomeFacts.

Import PyDatetime Normal Black76 EngineFacts ResultFacts NormalFacts.
Import Scenario ScenarioFacts Views.

Lemma defined_iff_returns_price self F t :
  constructed self ->
  (Spec.defined F (_strike_price self) (_vol self) (_calc_maturity self t)
   <-> exists p, get_price self F t = Return p).
Proof.
  intros Hc. split.
  - intros Hd. destruct (constructed_option_type self Hc) as [Hot|Hot].
    + eexists. apply (get_price_call _ _ _ Hd Hot).
    + eexists. apply (get_price_put _ _ _ Hd Hot).
  - intros [p Hp]. now apply get_price_returns_inv in Hp.
Qed.

Lemma defined_iff_returns_delta self F t :
  constructed self ->
  (Spec.defined F (_strike_price self) (_vol self) (_calc_maturity self t)
   <-> exists d, get_delta self F t = Return d).
Proof.
  intros Hc. split.
  - intros Hd. destruct (constructed_option_type self Hc) as [Hot|Hot].
    + eexists. apply (get_delta_call _ _ _ Hd Hot).
    + eexists. apply (get_delta_put _ _ _ Hd Hot).
  - intros [p Hp]. now apply get_delta_returns_inv in Hp.
Qed.

Lemma raise_iff_d1 self F t ex :
  constructed self ->
  (get_price self F t = Raise ex
   <-> _calc_d1 self F (_calc_maturity self t) = Raise ex) /\
  (get_delta self F t = Raise ex
   <-> _calc_d1 self F (_calc_maturity self t) = Raise ex).
Proof.
  intros Hc.
  destruct (_calc_d1 self F (_calc_maturity self t)) as [d|e] eqn:E.
  - pose proof (calc_d1_returns_inv _ _ _ _ E) as [Hd _].
    destruct (proj1 (defined_iff_returns_price self F t Hc) Hd) as [p Hp].
    destruct (proj1 (defined_iff_returns_delta self F t Hc) Hd) as [q Hq].
    rewrite Hp, Hq. repeat split; discriminate.
  - rewrite (get_price_propagates _ _ _ _ E), (get_delta_propagates _ _ _ _ E).
    repeat split; auto.
Qed.

Lemma valid_inputs_defined self F t :
  0 < _calc_maturity self t -> 0 < _vol self -> 0 < _strike_price self ->
  0 < F ->
  Spec.defined F (_strike_price self) (_vol self) (_calc_maturity self t).
Proof. intros HT Hv HK HF. now apply defined_positive. Qed.




End OutcomeFacts.

(** ** Further properties *)

Import TailFacts GreeksFacts OutcomeFacts Script Views.



(** X2.  On a constructed engine [get_price] and [get_delta] succeed and
    fail together.  Both return exactly when the strike is not zero, the
    futures price and the strike have the same sign, [0 < T] and the
    volatility is not zero; they raise the same exception otherwise: the
    division error for a zero strike, or for [T = 0] or a zero volatility
    once the logarithm was taken; the domain error for a quotient [F / K]
    that is not positive, or for [T < 0]. *)
Theorem evaluation_outcomes (self : EuropeanOptionOnFuture)
    (futures_price : R) (valuation_time : datetime) :
  constructed self ->
  let K := _strike_price self in
  let vol := _vol self in
  let T := _calc_maturity self valuation_time in
  ((exists p, get_price self futures_price valuation_time = Return p)
   <-> K <> 0 /\ 0 < futures_price / K /\ 0 < T /\ vol <> 0) /\
  ((exists p, get_price self futures_price valuation_time = Return p)
   <-> exists d, get_delta self futures_price valuation_time = Return d) /\
  (forall ex, get_price self futures_price valuation_time = Raise ex
              <-> get_delta self futures_price valuation_time = Raise ex) /\
  (get_price self futures_price valuation_time = Raise float_division_by_zero
   <-> K = 0 \/ (0 < futures_price / K /\ (T = 0 \/ (vol = 0 /\ 0 < T)))) /\
  (get_price self futures_price valuation_time = Raise math_domain_error
   <-> K <> 0 /\ (futures_price / K <= 0 \/ T < 0)).
Proof.
  intros Hc K vol T.
  split; [|split; [|split; [|split]]].
  - symmetry. apply (defined_iff_returns_price self _ _ Hc).
  - rewrite <- (defined_iff_returns_price self _ _ Hc).
    apply (defined_iff_returns_delta self _ _ Hc).
  - intros ex. destruct (raise_iff_d1 self futures_price valuation_time ex Hc)
      as [H1 H2]. rewrite H1, H2. reflexivity.
  - rewrite (proj1 (raise_iff_d1 self futures_price valuation_time _ Hc)).
    rewrite calc_d1_cases. cbv zeta. fold K vol T.
    destruct (Req_EM_T K 0) as [HK|HK]; [split; auto|].
    destruct (Rlt_dec 0 (futures_price / K)) as [HFK|HFK].
    2:{ split; [discriminate|]. intros [?|[? _]]; contradiction. }
    destruct (Rlt_dec T 0) as [HT|HT].
    { split; [discriminate|]. intros [?|[_ [?|[_ ?]]]]; [contradiction|lra|lra]. }
    destruct (Req_EM_T (vol * sqrt T) 0) as [Hz|Hz].
    + split; [|reflexivity]. intros _. right. split; [assumption|].
      apply Rmult_integral in Hz. destruct Hz as [Hz|Hz].
      * destruct (Req_dec T 0); [now left | right; split; [assumption|lra]].
      * left. apply sqrt_eq_0 in Hz; lra.
    + split; [discriminate|]. intros [?|[_ [HT0|[Hv0 _]]]]; [contradiction| |].
      * exfalso. apply Hz. rewrite HT0, sqrt_0. ring.
      * exfalso. apply Hz. rewrite Hv0. ring.
  - rewrite (proj1 (raise_iff_d1 self futures_price valuation_time _ Hc)).
    rewrite calc_d1_cases. cbv zeta. fold K vol T.
    destruct (Req_EM_T K 0) as [HK|HK].
    { split; [discriminate|]. intros [? _]; contradiction. }
    destruct (Rlt_dec 0 (futures_price / K)) as [HFK|HFK].
    2:{ split; [|reflexivity]. intros _. split; [assumption|left; lra]. }
    destruct (Rlt_dec T 0) as [HT|HT].
    { split; [|reflexivity]. intros _. split; [assumption|now right]. }
    destruct (Req_EM_T (vol * sqrt T) 0) as [Hz|Hz].
    + split; [discriminate|]. intros [_ [?|?]]; lra.
    + split; [discriminate|]. intros [_ [?|?]]; lra.
Qed.

Lemma evaluation_outcomes_witness :
  constructed opt /\
  (exists p, get_price opt 100 curr_time = Return p) /\
  get_price opt 0 curr_time = Raise math_domain_error.
Proof.
  split; [exact opt_constructed|].
  destruct (evaluation_outcomes opt 100 curr_time opt_constructed)
    as (H1 & _).
  destruct (evaluation_outcomes opt 0 curr_time opt_constructed)
    as (_ & _ & _ & _ & H5).
  split.
  - apply H1. unfold opt at 3. rewrite scenario_maturity. cbn. repeat split; lra.
  - apply H5. cbn. split; lra.
Defined.

(** X3.  From one day before the expiry up to the expiry itself the time
    to maturity is zero, and both evaluations raise the division error (for
    a strike and a futures price of the same sign): the engine prices no
    option in its last day. *)
Theorem last_day_division_by_zero (self : EuropeanOptionOnFuture)
    (futures_price : R) (valuation_time : datetime) :
  (0 <= to_microseconds (_expiry_date self) - to_microseconds valuation_time
   < 86400000000)%Z ->
  _calc_maturity self valuation_time = 0 /\
  (_strike_price self <> 0 -> 0 < futures_price / _strike_price self ->
   get_price self futures_price valuation_time = Raise float_division_by_zero /\
   get_delta self futures_price valuation_time = Raise float_division_by_zero).
Proof.
  intros He.
  assert (HT : _calc_maturity self valuation_time = 0).
  { unfold _calc_maturity. rewrite DatetimeFacts.days_sub_floor.
    rewrite Z.div_small by exact He. lra. }
  split; [exact HT|]. intros HK HFK.
  assert (E : _calc_d1 self futures_price (_calc_maturity self valuation_time)
              = Raise float_division_by_zero).
  { rewrite HT, calc_d1_cases. cbv zeta.
    destruct (Req_EM_T (_strike_price self) 0); [contradiction|].
    destruct (Rlt_dec 0 (futures_price / _strike_price self)); [|contradiction].
    destruct (Rlt_dec 0 0); [lra|].
    destruct (Req_EM_T (_vol self * sqrt 0) 0) as [_|Hz]; [reflexivity|].
    exfalso. apply Hz. rewrite sqrt_0. ring. }
  split; [now apply get_price_propagates | now apply get_delta_propagates].
Qed.

Lemma last_day_division_by_zero_witness :
  get_price opt 100 (mk_datetime 2022 10 31 12 0 0 1)
  = Raise float_division_by_zero /\
  get_delta opt 100 expiry = Raise float_division_by_zero.
Proof.
  split.
  - apply (last_day_division_by_zero opt 100 (mk_datetime 2022 10 31 12 0 0 1));
      [vm_compute; split; [discriminate | reflexivity] | cbn; lra | cbn; lra].
  - apply (last_day_division_by_zero opt 100 expiry);
      [vm_compute; split; [discriminate | reflexivity] | cbn; lra | cbn; lra].
Defined.

(** X4.  After the expiry the whole days are rounded down, not towards
    zero: the time to maturity is at most [- 1 / 365], and it is
    [- 1 / 365] up to one day after the expiry.  Both evaluations then raise
    the domain error of the square root (for a strike and a futures price of
    the same sign). *)
Theorem after_expiry_domain_error (self : EuropeanOptionOnFuture)
    (futures_price : R) (valuation_time : datetime) :
  (to_microseconds (_expiry_date self) < to_microseconds valuation_time)%Z ->
  _calc_maturity self valuation_time <= - 1 / 365 /\
  ((to_microseconds valuation_time - to_microseconds (_expiry_date self)
    <= 86400000000)%Z ->
   _calc_maturity self valuation_time = - 1 / 365) /\
  (_strike_price self <> 0 -> 0 < futures_price / _strike_price self ->
   get_price self futures_price valuation_time = Raise math_domain_error /\
   get_delta self futures_price valuation_time = Raise math_domain_error).
Proof.
  intros He.
  set (n := days (sub (_expiry_date self) valuation_time)).
  assert (Hn : (n <= -1)%Z).
  { unfold n. rewrite DatetimeFacts.days_sub_floor.
    assert (H : forall a, (a < 0 -> a / 86400000000 <= -1)%Z)
      by (intros a Ha; Z.div_mod_to_equations; lia).
    apply H. lia. }
  assert (HT : _calc_maturity self valuation_time <= - 1 / 365).
  { unfold _calc_maturity. fold n. apply IZR_le in Hn. lra. }
  split; [exact HT|]. split.
  - intros Hd. unfold _calc_maturity. fold n.
    assert (n = -1)%Z as ->; [|lra].
    unfold n. rewrite DatetimeFacts.days_sub_floor.
    assert (H : forall a, (-86400000000 <= a < 0 -> a / 86400000000 = -1)%Z)
      by (intros a Ha; Z.div_mod_to_equations; lia).
    apply H. lia.
  - intros HK HFK.
    assert (E : _calc_d1 self futures_price (_calc_maturity self valuation_time)
                = Raise math_domain_error).
    { rewrite calc_d1_cases. cbv zeta.
      destruct (Req_EM_T (_strike_price self) 0); [contradiction|].
      destruct (Rlt_dec 0 (futures_price / _strike_price self));
        [|contradiction].
      destruct (Rlt_dec (_calc_maturity self valuation_time) 0);
        [reflexivity | lra]. }
    split; [now apply get_price_propagates | now apply get_delta_propagates].
Qed.

Lemma after_expiry_domain_error_witness :
  _calc_maturity opt (mk_datetime 2022 11 1 12 0 0 1) = - 1 / 365 /\
  get_price opt 100 (mk_datetime 2022 11 1 12 0 0 1) = Raise math_domain_error.
Proof.
  assert (He : (to_microseconds (_expiry_date opt)
                < to_microseconds (mk_datetime 2022 11 1 12 0 0 1))%Z)
    by (vm_compute; reflexivity).
  destruct (after_expiry_domain_error opt 100 _ He) as (_ & H1 & H2).
  split.
  - apply H1. vm_compute. discriminate.
  - apply H2; cbn; lra.
Defined.

(** X5.  The time to maturity never grows with the valuation time, and
    moving the valuation time by [n] whole days lowers the count of days by
    exactly [n]: the time to maturity becomes the quotient of the new count
    by 365.  (In binary64 that quotient is not always the former time to
    maturity less [n / 365]: [Binary64Facts.maturity_steps_rounded].) *)
Theorem maturity_whole_day_steps (self : EuropeanOptionOnFuture)
    (t1 t2 : datetime) :
  ((to_microseconds t1 <= to_microseconds t2)%Z ->
   _calc_maturity self t2 <= _calc_maturity self t1) /\
  (forall n : Z,
     to_microseconds t2 = (to_microseconds t1 + n * 86400000000)%Z ->
     days (sub (_expiry_date self) t2)
     = (days (sub (_expiry_date self) t1) - n)%Z /\
     _calc_maturity self t2
     = IZR (days (sub (_expiry_date self) t1) - n) / 365).
Proof.
  unfold _calc_maturity. rewrite !DatetimeFacts.days_sub_floor. split.
  - intros H.
    assert (Hd : ((to_microseconds (_expiry_date self) - to_microseconds t2)
                  / 86400000000
                  <= (to_microseconds (_expiry_date self) - to_microseconds t1)
                     / 86400000000)%Z)
      by (apply Z.div_le_mono; lia).
    apply IZR_le in Hd. lra.
  - intros n H. rewrite H.
    replace (to_microseconds (_expiry_date self)
             - (to_microseconds t1 + n * 86400000000))%Z
      with ((- n) * 86400000000
            + (to_microseconds (_expiry_date self) - to_microseconds t1))%Z
      by ring.
    rewrite Z.div_add_l by lia.
    replace (- n + (to_microseconds (_expiry_date self) - to_microseconds t1)
                   / 86400000000)%Z
      with ((to_microseconds (_expiry_date self) - to_microseconds t1)
            / 86400000000 - n)%Z by ring.
    split; reflexivity.
Qed.

Lemma maturity_whole_day_steps_witness :
  (days (sub (_expiry_date opt) (mk_datetime 2021 11 8 12 0 0 0))
   = (days (sub (_expiry_date opt) curr_time) - 7)%Z /\
   _calc_maturity opt (mk_datetime 2021 11 8 12 0 0 0)
   = IZR (days (sub (_expiry_date opt) curr_time) - 7) / 365) /\
  _calc_maturity opt (mk_datetime 2021 11 1 23 59 59 0)
  <= _calc_maturity opt curr_time.
Proof.
  split.
  - apply (maturity_whole_day_steps opt curr_time
             (mk_datetime 2021 11 8 12 0 0 0)) with (n := 7%Z).
    vm_compute. reflexivity.
  - apply (maturity_whole_day_steps opt curr_time
             (mk_datetime 2021 11 1 23 59 59 0)).
    vm_compute. discriminate.
Defined.



(** X7.  [get_delta] returns the derivative of the price returned by
    [get_price] with respect to the futures price, for a call and for a
    put. *)
Theorem delta_is_price_derivative (self : EuropeanOptionOnFuture)
    (futures_price : R) (valuation_time : datetime) :
  constructed self ->
  0 < _calc_maturity self valuation_time -> 0 < _vol self ->
  0 < _strike_price self -> 0 < futures_price ->
  exists delta,
    get_delta self futures_price valuation_time = Return delta /\
    derivable_pt_lim (fun f => value_of (get_price self f valuation_time))
                     futures_price delta.
Proof.
  intros Hc HT Hv HK HF.
  pose proof (valid_inputs_defined self futures_price valuation_time
                HT Hv HK HF) as Hd.
  assert (Hloc : forall ot,
    (forall f, 0 < f ->
       get_price self f valuation_time
       = Return (Spec.price ot f (_strike_price self) (_vol self)
                   (_discount_rate self) (_calc_maturity self valuation_time))) ->
    derivable_pt_lim (fun f => Spec.price ot f (_strike_price self) (_vol self)
                   (_discount_rate self) (_calc_maturity self valuation_time))
      futures_price
      (Spec.delta ot futures_price (_strike_price self) (_vol self)
                   (_discount_rate self) (_calc_maturity self valuation_time)) ->
    derivable_pt_lim (fun f => value_of (get_price self f valuation_time))
      futures_price
      (Spec.delta ot futures_price (_strike_price self) (_vol self)
                   (_discount_rate self) (_calc_maturity self valuation_time))).
  { intros ot Heq Hder.
    apply derivable_pt_lim_locally_ext
      with (f := fun f => Spec.price ot f (_strike_price self) (_vol self)
                   (_discount_rate self) (_calc_maturity self valuation_time))
           (a := 0) (b := futures_price + 1); [lra | | exact Hder].
    intros z Hz. rewrite (Heq z (proj1 Hz)). reflexivity. }
  destruct (constructed_option_type self Hc) as [Hot|Hot].
  - eexists. split; [apply (get_delta_call _ _ _ Hd Hot)|].
    apply Hloc.
    + intros f Hf. apply get_price_call; [|exact Hot].
      now apply valid_inputs_defined.
    + now apply call_price_deriv.
  - eexists. split; [apply (get_delta_put _ _ _ Hd Hot)|].
    apply Hloc.
    + intros f Hf. apply get_price_put; [|exact Hot].
      now apply valid_inputs_defined.
    + now apply put_price_deriv.
Qed.

Lemma delta_is_price_derivative_witness :
  constructed opt_put /\
  exists delta,
    get_delta opt_put 100 curr_time = Return delta /\
    derivable_pt_lim (fun f => value_of (get_price opt_put f curr_time))
                     100 delta.
Proof.
  split; [exact opt_put_constructed|].
  apply (delta_is_price_derivative opt_put 100 curr_time opt_put_constructed).
  - unfold opt_put. rewrite scenario_maturity. lra.
  - cbn. lra.
  - cbn. lra.
  - lra.
Defined.








(** X12.  The self-test under [if __name__ == "__main__"] runs to its end:
    it prints the price and the delta and none of its four assertions
    fails. *)
Theorem main_passes :
  exists price delta,
    main [] = ([("Test price = "%string, price);
                ("Test delta = "%string, delta)], inl tt) /\
    get_price opt 100 curr_time = Return price /\
    get_delta opt 100 curr_time = Return delta.
Proof.
  pose proof norm_cdf_quarter as [Hn1 Hn2].
  pose proof exp_hundredth as [He1 He2].
  eexists. eexists. split; [|split;
    [apply scenario_price_call | apply scenario_delta_call]].
  unfold main. cbv zeta. fold expiry curr_time.
  change (__init__ 100 expiry 0.5 0.01 "c") with (Return opt).
  change (__init__ 100 expiry 0.5 0.01 "p") with (Return opt_put).
  unfold seq at 1. unfold lift at 1. cbv iota beta.
  unfold seq at 1. rewrite scenario_price_call. unfold lift at 1. cbv iota beta.
  unfold seq at 1. rewrite scenario_delta_call. unfold lift at 1. cbv iota beta.
  rewrite sqrt_1. replace (0.25 - 0.5 * 1) with (- (0.25)) by lra.
  rewrite norm_cdf_opp. replace (- (0.01) * 1) with (- (0.01)) by lra.
  unfold seq at 1. unfold print at 1. cbv iota beta.
  unfold seq at 1. unfold assert at 1.
  destruct (Rle_dec _ _) as [_|Hn];
    [|exfalso; apply Hn; apply Rabs_le; split; nra].
  unfold seq at 1. unfold print at 1. cbv iota beta.
  unfold seq at 1. unfold assert at 1.
  destruct (Rle_dec _ _) as [_|Hn];
    [|exfalso; apply Hn; apply Rabs_le; split; nra].
  unfold seq at 1. unfold lift at 1. cbv iota beta.
  unfold seq at 1. rewrite scenario_delta_call. unfold lift at 1. cbv iota beta.
  replace (- (0.01) * 1) with (- (0.01)) by lra.
  unfold seq at 1. unfold assert at 1.
  destruct (Rgt_dec _ _) as [_|Hn]; [|exfalso; apply Hn; nra].
  unfold seq at 1. unfold lift at 1. cbv iota beta.
  unfold seq at 1. rewrite scenario_delta_put. unfold lift at 1. cbv iota beta.
  replace (- (0.01) * 1) with (- (0.01)) by lra.
  unfold assert.
  destruct (Rlt_dec _ _) as [_|Hn]; [|exfalso; apply Hn; nra].
  reflexivity.
Qed.

(** X13.  When the expiry is the valuation time one calendar year later,
    the time to maturity is [1] unless a 29th of February lies in between,
    in which case it is [366 / 365]. *)
Theorem calendar_year_maturity (self : EuropeanOptionOnFuture)
    (valuation_time : datetime) :
  valid valuation_time ->
  _expiry_date self
  = mk_datetime (year valuation_time + 1) (month valuation_time)
      (day valuation_time) (hour valuation_time) (minute valuation_time)
      (second valuation_time) (microsecond valuation_time) ->
  _calc_maturity self valuation_time
  = if (if (month valuation_time <=? 2)%Z then is_leap (year valuation_time)
        else is_leap (year valuation_time + 1))
    then 366 / 365 else 1.
Proof.
  intros Hv He. unfold _calc_maturity. rewrite He.
  destruct valuation_time as [y m d h mi s u]. destruct Hv as (_ & Hm & _).
  cbn [year month day hour minute second microsecond] in *.
  unfold sub, timedelta_new, toordinal, ymd2ord, seconds_of_day.
  cbn [year month day hour minute second microsecond days].
  rewrite !Z.sub_diag. cbn [Z.div Z.add]. rewrite Z.add_0_r.
  rewrite DatetimeFacts.days_before_year_succ.
  unfold days_in_year, days_before_month.
  assert (Hc : (m = 1 \/ m = 2 \/ m = 3 \/ m = 4 \/ m = 5 \/ m = 6 \/ m = 7
                \/ m = 8 \/ m = 9 \/ m = 10 \/ m = 11 \/ m = 12)%Z) by lia.
  destruct (is_leap y); destruct (is_leap (y + 1));
    repeat (destruct Hc as [-> | Hc]); try subst m;
    cbv [nth Z.to_nat Pos.to_nat Pos.iter_op Init.Nat.add Z.eqb Pos.eqb Z.ltb
         Z.leb Z.compare Pos.compare Pos.compare_cont andb];
    match goal with
    | |- IZR ?z / 365 = _ =>
        (replace z with 366%Z by lia; reflexivity)
        || (replace z with 365%Z by lia; lra)
    end.
Qed.

Lemma calendar_year_maturity_witness :
  _calc_maturity (mk_engine 100 (mk_datetime 2025 1 1 0 0 0 0) 0.5 0.01 "c")
                 (mk_datetime 2024 1 1 0 0 0 0) = 366 / 365 /\
  _calc_maturity opt curr_time = 1.
Proof.
  split.
  - apply (calendar_year_maturity
             (mk_engine 100 (mk_datetime 2025 1 1 0 0 0 0) 0.5 0.01 "c")
             (mk_datetime 2024 1 1 0 0 0 0)); [|reflexivity].
    unfold valid. cbn [year month day hour minute second microsecond].
    replace (days_in_month 2024 1) with 31%Z by (vm_compute; reflexivity).
    lia.
  - apply (calendar_year_maturity opt curr_time); [|reflexivity].
    unfold valid, curr_time.
    cbn [year month day hour minute second microsecond].
    replace (days_in_month 2021 11) with 30%Z by (vm_compute; reflexivity).
    lia.
Defined.
